(** * The cron spec parser (parser.go), embedded in Rocq

    The development follows parser.go top to bottom.  Go's [uint] and
    [uint64] are modelled as [N] with the wrap-around modulo 2^64 written
    out where the source can overflow, Go's [int] as [Z], strings as byte
    strings ([string], one [ascii] per byte), the name tables of the month
    and weekday bounds as [gmap string N].

    A Go call either returns its pair (value, error), or panics, or does not
    come back from a loop; the type [go] below keeps the three apart. *)

From Stdlib Require Import ZArith NArith Lia Bool List Ascii String.
From stdpp Require Import base option list strings gmap.

Local Open Scope N_scope.

(** ** The parts of Go's standard library that parser.go calls *)

Module strings.

(** unicode.IsSpace on a single byte.  The spaces of Unicode above 0x7f
    take several bytes in UTF-8 and are not recognised here: the model of
    [Fields] and [TrimSpace] is the one of Go on ASCII input. *)
Definition isSpace (c : ascii) : bool :=
  let n := N_of_ascii c in
  ((9 <=? n) && (n <=? 13)) || (n =? 32).

(** strings.HasPrefix *)
Definition HasPrefix (s p : string) : bool := String.prefix p s.

(** strings.Index for a one-byte needle: position of the first
    occurrence, -1 when there is none. *)
Fixpoint Index (s : string) (c : ascii) : Z :=
  match s with
  | EmptyString => (-1)%Z
  | String a s' =>
      if Ascii.eqb a c then 0%Z
      else let i := Index s' c in
           if (i <? 0)%Z then (-1)%Z else (i + 1)%Z
  end.

(** strings.Split for a one-byte separator: the pieces between all the
    occurrences, empty pieces kept, never an empty list. *)
Fixpoint Split (s : string) (sep : ascii) : list string :=
  match s with
  | EmptyString => [EmptyString]
  | String a s' =>
      if Ascii.eqb a sep then EmptyString :: Split s' sep
      else match Split s' sep with
           | piece :: rest => String a piece :: rest
           | [] => [String a EmptyString]
           end
  end.

(** strings.FieldsFunc: the maximal runs of bytes not satisfying [f];
    empty runs are dropped. *)
Fixpoint FieldsFunc (s : string) (f : ascii -> bool) : list string :=
  match s with
  | EmptyString => []
  | String a s' =>
      if f a then FieldsFunc s' f
      else match s' with
           | EmptyString => [String a EmptyString]
           | String b _ =>
               if f b then String a EmptyString :: FieldsFunc s' f
               else match FieldsFunc s' f with
                    | piece :: rest => String a piece :: rest
                    | [] => [String a EmptyString]
                    end
           end
  end.

(** strings.Fields *)
Definition Fields (s : string) : list string := FieldsFunc s isSpace.

Fixpoint trimLeft (s : string) : string :=
  match s with
  | EmptyString => EmptyString
  | String a s' => if isSpace a then trimLeft s' else s
  end.

Fixpoint trimRight (s : string) : string :=
  match s with
  | EmptyString => EmptyString
  | String a s' =>
      match trimRight s' with
      | EmptyString => if isSpace a then EmptyString else String a EmptyString
      | t => String a t
      end
  end.

(** strings.TrimSpace *)
Definition TrimSpace (s : string) : string := trimRight (trimLeft s).

Definition lowerByte (c : ascii) : ascii :=
  let n := N_of_ascii c in
  if (65 <=? n) && (n <=? 90) then ascii_of_N (n + 32) else c.

(** strings.ToLower, on the ASCII letters.  Bytes above 0x7f are left as
    they are. *)
Fixpoint ToLower (s : string) : string :=
  match s with
  | EmptyString => EmptyString
  | String a s' => String (lowerByte a) (ToLower s')
  end.

End strings.

Module strconv.

(** The two errors of strconv: ErrSyntax and ErrRange. *)
Inductive NumError : Type := ErrSyntax | ErrRange.

Definition digit (c : ascii) : option Z :=
  let n := Z.of_N (N_of_ascii c) in
  if ((48 <=? n) && (n <=? 57))%Z then Some (n - 48)%Z else None.

(** The loop of strconv.ParseUint in base 10, over 64 bits: a byte that is
    not a digit is a syntax error, a value of 2^64 or more a range error,
    whichever comes first. *)
Fixpoint digits (n : Z) (s : string) : Z + NumError :=
  match s with
  | EmptyString => inl n
  | String c s' =>
      match digit c with
      | None => inr ErrSyntax
      | Some d =>
          if (2 ^ 64 <=? n * 10 + d)%Z then inr ErrRange
          else digits (n * 10 + d)%Z s'
      end
  end.

(** strconv.Atoi on a 64-bit platform: an optional sign, at least one
    decimal digit, nothing else, and a value that fits [int]. *)
Definition Atoi (s : string) : Z + NumError :=
  match s with
  | EmptyString => inr ErrSyntax
  | String c s' =>
      let neg := Ascii.eqb c "-" in
      let body := if neg || Ascii.eqb c "+" then s' else s in
      match body with
      | EmptyString => inr ErrSyntax
      | _ =>
          match digits 0 body with
          | inr err => inr err
          | inl n =>
              let v := if neg then (- n)%Z else n in
              if ((- 2 ^ 63 <=? v) && (v <? 2 ^ 63))%Z then inl v
              else inr ErrRange
          end
      end
  end.

End strconv.

(** ** Outcomes of a Go call *)

(** One constructor for each [fmt.Errorf] of parser.go, with the arguments of
    its format string. *)
Inductive error : Type :=
| ErrEmptySpec
| ErrBadLocation (name : string) (err : string)
| ErrNoDescriptors (spec : string)
| ErrMultipleOptionals
| ErrExpectedExactly (min count : Z) (fields : list string)
| ErrExpectedBetween (min max count : Z) (fields : list string)
| ErrUnknownOptional
| ErrTooManyHyphens (expr : string)
| ErrTooManySlashes (expr : string)
| ErrBelowMinimum (start min : N) (expr : string)
| ErrAboveMaximum (end_ max : N) (expr : string)
| ErrBeyondEnd (start end_ : N) (expr : string)
| ErrStepNotPositive (expr : string)
| ErrParseInt (expr : string) (err : strconv.NumError)
| ErrNegative (num : Z) (expr : string)
| ErrParseDuration (descriptor : string) (err : string)
| ErrUnrecognizedDescriptor (descriptor : string).

Inductive panic : Type :=
| IndexOutOfRange
| SliceOutOfRange
| PanicMsg (msg : string).

(** [Ok a]: the call returns [a] and a nil error.  [Err e]: it returns the
    error [e]; the value that comes with it (0, nil, or in getField the bits
    gathered so far) is dropped, no caller in parser.go uses it.  [Panic p]:
    a run-time panic.  [NoReturn]: the loop of getBits was cut off, it does
    not end within the rounds the model grants it. *)
Inductive go (A : Type) : Type :=
| Ok (a : A)
| Err (e : error)
| Panic (p : panic)
| NoReturn.

Arguments Ok {A} a.
Arguments Err {A} e.
Arguments Panic {A} p.
Arguments NoReturn {A}.

Definition bind {A B : Type} (m : go A) (k : A -> go B) : go B :=
  match m with
  | Ok a => k a
  | Err e => Err e
  | Panic p => Panic p
  | NoReturn => NoReturn
  end.

Declare Scope go_scope.
Delimit Scope go_scope with go.
Notation "'let*' x ':=' m 'in' k" := (bind m (fun x => k))
  (at level 10, x name, m at level 100, k at level 200) : go_scope.
Notation "'let*' ' pat ':=' m 'in' k" :=
  (bind m (fun x => match x with pat => k end))
  (at level 10, pat pattern, m at level 100, k at level 200) : go_scope.
Local Open Scope go_scope.

(** [l[i]]: a run-time panic when [i] is not an index of [l]. *)
Definition index {A : Type} (l : list A) (i : Z) : go A :=
  if (i <? 0)%Z then Panic IndexOutOfRange
  else match l !! Z.to_nat i with
       | Some x => Ok x
       | None => Panic IndexOutOfRange
       end.

(** [s[lo:hi]]: a run-time panic unless [0 <= lo <= hi <= len(s)]. *)
Definition slice (s : string) (lo hi : Z) : go string :=
  if ((0 <=? lo) && (lo <=? hi) && (hi <=? Z.of_nat (String.length s)))%Z
  then Ok (String.substring (Z.to_nat lo) (Z.to_nat (hi - lo)) s)
  else Panic SliceOutOfRange.

(** ** 64-bit unsigned arithmetic *)

Definition MaxUint64 : N := 2 ^ 64 - 1.

(** [x << k] on uint64: the bits pushed over position 63 are lost, a count
    of 64 or more gives 0. *)
Definition shl64 (x k : N) : N :=
  if 64 <=? k then 0 else N.shiftl x k mod 2 ^ 64.

(** [^x] on uint64 *)
Definition not64 (x : N) : N := N.lxor x MaxUint64.

(** [a + b] on uint *)
Definition uadd (a b : N) : N := (a + b) mod 2 ^ 64.

(** ** Bounds *)

(** Modelled from the spec: the struct [bounds] of spec.go (section 3,
    Bounds: min, max, and a name table that is nil except for months and
    weekdays). *)
Record bounds : Type := { min : N; max : N; names : option (gmap string N) }.

(** Modelled from the spec: the constant [starBit] of spec.go (the wildcard
    bit is bit 63). *)
Definition starBit : N := 2 ^ 63.

(** Modelled from the spec: the six bounds of spec.go (section 4.1; minutes
    0-59, seconds 0-59, weekdays 0-6 with sun..sat, months 1-12 with
    jan..dec; hours and days of the month have their calendar ranges 0-23
    and 1-31). *)
Definition seconds : bounds := {| min := 0; max := 59; names := None |}.
Definition minutes : bounds := {| min := 0; max := 59; names := None |}.
Definition hours : bounds := {| min := 0; max := 23; names := None |}.
Definition dom : bounds := {| min := 1; max := 31; names := None |}.
Definition months : bounds :=
  {| min := 1; max := 12;
     names := Some (list_to_map
       [("jan", 1); ("feb", 2); ("mar", 3); ("apr", 4); ("may", 5); ("jun", 6);
        ("jul", 7); ("aug", 8); ("sep", 9); ("oct", 10); ("nov", 11); ("dec", 12)]) |}.
Definition dow : bounds :=
  {| min := 0; max := 6;
     names := Some (list_to_map
       [("sun", 0); ("mon", 1); ("tue", 2); ("wed", 3); ("thu", 4); ("fri", 5);
        ("sat", 6)]) |}.

(** ** parseIntOrName, mustParseInt (parser.go, 341-362) *)

Definition mustParseInt (expr : string) : go N :=
  match strconv.Atoi expr with
  | inr err => Err (ErrParseInt expr err)
  | inl num =>
      if (num <? 0)%Z then Err (ErrNegative num expr)
      else Ok (Z.to_N num)
  end.

Definition parseIntOrName (expr : string) (names : option (gmap string N)) : go N :=
  match names with
  | Some table =>
      match table !! strings.ToLower expr with
      | Some namedInt => Ok namedInt
      | None => mustParseInt expr
      end
  | None => mustParseInt expr
  end.

(** ** getBits, all (parser.go, 366-393) *)

(** The loop [for i := min; i <= max; i += step { bits |= 1 << i }], one
    unit of [fuel] for each test of [i <= max]; [None] when the fuel runs
    out before the test fails. *)
Fixpoint getBits_loop (fuel : nat) (i max step bits : N) : option N :=
  match fuel with
  | O => None
  | S fuel' =>
      if i <=? max
      then getBits_loop fuel' (uadd i step) max step (N.lor bits (shl64 1 i))
      else Some bits
  end.

(** With a step of at least 1 and a counter that does not wrap around, the
    test fails after [max - min + 1] rounds at the latest; that is the fuel
    given to the loop. *)
Definition getBits (min max step : N) : go N :=
  if step =? 1
  then Ok (N.land (not64 (shl64 MaxUint64 (uadd max 1))) (shl64 MaxUint64 min))
  else match getBits_loop (N.to_nat (max - min) + 2) min max step 0 with
       | Some bits => Ok bits
       | None => NoReturn
       end.

Definition all (r : bounds) : go N :=
  let* bits := getBits r.(min) r.(max) 1 in
  Ok (N.lor bits starBit).

(** ** getRange (parser.go, 259-339) *)

(** Lines 260-323: the start, the end, the step and the wildcard bit of a
    sub-expression.  The two [fmt.Println] of the source write to standard
    output only and are left out. *)
Definition getRange_resolve (expr : string) (r : bounds) : go (N * N * N * N) :=
  let rangeAndStep := strings.Split expr "/" in
  let* rangeAndStep0 := index rangeAndStep 0 in
  let lowAndHigh := strings.Split rangeAndStep0 "-" in
  let singleDigit := (length lowAndHigh =? 1)%nat in
  let* lowAndHigh0 := index lowAndHigh 0 in
  let* '(start, end_, extra) :=
    (if String.eqb lowAndHigh0 "*" || String.eqb lowAndHigh0 "?"
     then Ok (r.(min), r.(max), starBit)
     else
       let* start := parseIntOrName lowAndHigh0 r.(names) in
       match length lowAndHigh with
       | 1%nat => Ok (start, start, 0)
       | 2%nat =>
           let* lowAndHigh1 := index lowAndHigh 1 in
           let* end_ := parseIntOrName lowAndHigh1 r.(names) in
           Ok (start, end_, 0)
       | _ => Err (ErrTooManyHyphens expr)
       end) in
  match length rangeAndStep with
  | 1%nat => Ok (start, end_, 1, extra)
  | 2%nat =>
      let* rangeAndStep1 := index rangeAndStep 1 in
      let* step := mustParseInt rangeAndStep1 in
      let end_ := if singleDigit then r.(max) else end_ in
      let extra := if 1 <? step then 0 else extra in
      Ok (start, end_, step, extra)
  | _ => Err (ErrTooManySlashes expr)
  end.

(** Lines 325-338: the four checks, then the bits. *)
Definition getRange_check (expr : string) (r : bounds) (start end_ step extra : N) : go N :=
  if start <? r.(min) then Err (ErrBelowMinimum start r.(min) expr)
  else if r.(max) <? end_ then Err (ErrAboveMaximum end_ r.(max) expr)
  else if end_ <? start then Err (ErrBeyondEnd start end_ expr)
  else if step =? 0 then Err (ErrStepNotPositive expr)
  else let* bits := getBits start end_ step in Ok (N.lor bits extra).

Definition getRange (expr : string) (r : bounds) : go N :=
  let* '(start, end_, step, extra) := getRange_resolve expr r in
  getRange_check expr r start end_ step extra.

(** ** getField (parser.go, 241-252) *)

Fixpoint getField_loop (ranges : list string) (r : bounds) (bits : N) : go N :=
  match ranges with
  | [] => Ok bits
  | expr :: ranges' =>
      let* bit := getRange expr r in
      getField_loop ranges' r (N.lor bits bit)
  end.

Definition getField (field : string) (r : bounds) : go N :=
  let ranges := strings.FieldsFunc field (fun r => Ascii.eqb r ",") in
  getField_loop ranges r 0.

(** ** ParseOption, places, defaults, Parser (parser.go, 15-83) *)

Definition ParseOption : Type := Z.

Definition Second : ParseOption := 1%Z.
Definition SecondOptional : ParseOption := 2%Z.
Definition Minute : ParseOption := 4%Z.
Definition Hour : ParseOption := 8%Z.
Definition Dom : ParseOption := 16%Z.
Definition Month : ParseOption := 32%Z.
Definition Dow : ParseOption := 64%Z.
Definition DowOptional : ParseOption := 128%Z.
Definition Descriptor : ParseOption := 256%Z.

Definition places : list ParseOption := [Second; Minute; Hour; Dom; Month; Dow].

Definition defaults : list string := ["0"; "0"; "0"; "*"; "*"; "*"].

Record Parser : Type := { options : ParseOption }.

(** [options&flag > 0] *)
Definition has (options flag : ParseOption) : bool := (0 <? Z.land options flag)%Z.

Definition NewParser (options : ParseOption) : go Parser :=
  let optionals := 0%Z in
  let optionals := if has options DowOptional then (optionals + 1)%Z else optionals in
  let optionals := if has options SecondOptional then (optionals + 1)%Z else optionals in
  if (1 <? optionals)%Z then Panic (PanicMsg "multiple optionals may not be configured")
  else Ok {| options := options |}.

(** ** normalizeFields (parser.go, 163-218) *)

(** [copy(dst, src)]: the first min(len dst, len src) elements of [dst]
    become those of [src]. *)
Definition copy {A : Type} (dst src : list A) : list A :=
  take (length dst) src ++ drop (length src) dst.

(** The loop of lines 211-216.  [i] stays below [len(places)], the length of
    [expandedFields], so the store at [i] is always in range. *)
Fixpoint normalizeFields_loop (ps : list ParseOption) (i : nat) (options : ParseOption)
    (fields : list string) (n : Z) (expandedFields : list string) : go (list string) :=
  match ps with
  | [] => Ok expandedFields
  | place :: ps' =>
      if has options place
      then let* f := index fields n in
           normalizeFields_loop ps' (S i) options fields (n + 1)%Z (<[i := f]> expandedFields)
      else normalizeFields_loop ps' (S i) options fields n expandedFields
  end.

Definition normalizeFields (fields : list string) (options : ParseOption) : go (list string) :=
  let optionals := 0%Z in
  let '(options, optionals) :=
    if has options SecondOptional then (Z.lor options Second, (optionals + 1)%Z)
    else (options, optionals) in
  let '(options, optionals) :=
    if has options DowOptional then (Z.lor options Dow, (optionals + 1)%Z)
    else (options, optionals) in
  if (1 <? optionals)%Z then Err ErrMultipleOptionals
  else
    let max := fold_left (fun max place => if has options place then (max + 1)%Z else max)
                 places 0%Z in
    let min := (max - optionals)%Z in
    let count := Z.of_nat (length fields) in
    if ((count <? min) || (max <? count))%Z
    then if (min =? max)%Z then Err (ErrExpectedExactly min count fields)
         else Err (ErrExpectedBetween min max count fields)
    else
      let* fields :=
        if ((min <? max) && (Z.of_nat (length fields) =? min))%Z
        then if has options DowOptional
             then let* d := index defaults 5 in Ok (fields ++ [d])
             else if has options SecondOptional
             then let* d := index defaults 0 in Ok ([d] ++ fields)
             else Err ErrUnknownOptional
        else Ok fields in
      let expandedFields := copy (replicate (length places) EmptyString) defaults in
      normalizeFields_loop places 0 options fields 0 expandedFields.

(** ** The package time *)

(** What parser.go uses of Go's package time: the locations with the local
    one, time.LoadLocation, the durations and time.ParseDuration.  The two
    functions return their result or the text of their error. *)
Class Time : Type := {
  Location : Type;
  Local : Location;
  LoadLocation : string -> Location + string;
  Duration : Type;
  ParseDuration : string -> Duration + string
}.

Section Parse.

Context `{Time}.

(** The struct SpecSchedule of spec.go, with the fields parser.go fills. *)
Record SpecSchedule : Type := {
  Sched_Second : N;
  Sched_Minute : N;
  Sched_Hour : N;
  Sched_Dom : N;
  Sched_Month : N;
  Sched_Dow : N;
  Sched_Location : Location
}.

(** The interface Schedule, with its two implementations.
    Modelled from the spec: [Every] of constantdelay.go (section 4.5, the
    fixed-interval schedule the duration of [@every] is handed to), kept as a
    constructor on the parsed duration. *)
Inductive Schedule : Type :=
| Spec (s : SpecSchedule)
| Every (duration : Duration).

(** ** parseDescriptor (parser.go, 396-465) *)

Definition every : string := "@every ".

Definition parseDescriptor (descriptor : string) (loc : Location) : go Schedule :=
  if String.eqb descriptor "@yearly" || String.eqb descriptor "@annually" then
    let* dows := all dow in
    Ok (Spec {| Sched_Second := shl64 1 seconds.(min);
                Sched_Minute := shl64 1 minutes.(min);
                Sched_Hour := shl64 1 hours.(min);
                Sched_Dom := shl64 1 dom.(min);
                Sched_Month := shl64 1 months.(min);
                Sched_Dow := dows;
                Sched_Location := loc |})
  else if String.eqb descriptor "@monthly" then
    let* ms := all months in
    let* dows := all dow in
    Ok (Spec {| Sched_Second := shl64 1 seconds.(min);
                Sched_Minute := shl64 1 minutes.(min);
                Sched_Hour := shl64 1 hours.(min);
                Sched_Dom := shl64 1 dom.(min);
                Sched_Month := ms;
                Sched_Dow := dows;
                Sched_Location := loc |})
  else if String.eqb descriptor "@weekly" then
    let* doms := all dom in
    let* ms := all months in
    Ok (Spec {| Sched_Second := shl64 1 seconds.(min);
                Sched_Minute := shl64 1 minutes.(min);
                Sched_Hour := shl64 1 hours.(min);
                Sched_Dom := doms;
                Sched_Month := ms;
                Sched_Dow := shl64 1 dow.(min);
                Sched_Location := loc |})
  else if String.eqb descriptor "@daily" || String.eqb descriptor "@midnight" then
    let* doms := all dom in
    let* ms := all months in
    let* dows := all dow in
    Ok (Spec {| Sched_Second := shl64 1 seconds.(min);
                Sched_Minute := shl64 1 minutes.(min);
                Sched_Hour := shl64 1 hours.(min);
                Sched_Dom := doms;
                Sched_Month := ms;
                Sched_Dow := dows;
                Sched_Location := loc |})
  else if String.eqb descriptor "@hourly" then
    let* hs := all hours in
    let* doms := all dom in
    let* ms := all months in
    let* dows := all dow in
    Ok (Spec {| Sched_Second := shl64 1 seconds.(min);
                Sched_Minute := shl64 1 minutes.(min);
                Sched_Hour := hs;
                Sched_Dom := doms;
                Sched_Month := ms;
                Sched_Dow := dows;
                Sched_Location := loc |})
  else if strings.HasPrefix descriptor every then
    let* text := slice descriptor (Z.of_nat (String.length every))
                   (Z.of_nat (String.length descriptor)) in
    match ParseDuration text with
    | inr err => Err (ErrParseDuration descriptor err)
    | inl duration => Ok (Every duration)
    end
  else Err (ErrUnrecognizedDescriptor descriptor).

(** ** Parse (parser.go, 88-156) *)

(** The closure [field] of lines 126-133; [err] is the variable it shares
    with Parse.  Once [err] is set, getField is not called any more.  The
    bits that come with an error are never read: Parse returns the error. *)
Definition field (err : option error) (f : string) (r : bounds) : go (N * option error) :=
  match err with
  | Some _ => Ok (0, err)
  | None =>
      match getField f r with
      | Ok bits => Ok (bits, None)
      | Err e => Ok (0, Some e)
      | Panic p => Panic p
      | NoReturn => NoReturn
      end
  end.

Definition Parse (p : Parser) (spec : string) : go Schedule :=
  if (String.length spec =? 0)%nat then Err ErrEmptySpec
  else
    let* '(loc, spec) :=
      if strings.HasPrefix spec "TZ=" || strings.HasPrefix spec "CRON_TZ="
      then
        let i := strings.Index spec " " in
        let eq := strings.Index spec "=" in
        let* name := slice spec (eq + 1) i in
        match LoadLocation name with
        | inr err => Err (ErrBadLocation name err)
        | inl loc =>
            let* rest := slice spec i (Z.of_nat (String.length spec)) in
            Ok (loc, strings.TrimSpace rest)
        end
      else Ok (Local, spec) in
    if strings.HasPrefix spec "@"
    then if (Z.land p.(options) Descriptor =? 0)%Z then Err (ErrNoDescriptors spec)
         else parseDescriptor spec loc
    else
      let fields := strings.Fields spec in
      let* fields := normalizeFields fields p.(options) in
      let err := None in
      let* f0 := index fields 0 in
      let* '(second, err) := field err f0 seconds in
      let* f1 := index fields 1 in
      let* '(minute, err) := field err f1 minutes in
      let* f2 := index fields 2 in
      let* '(hour, err) := field err f2 hours in
      let* f3 := index fields 3 in
      let* '(dayofmonth, err) := field err f3 dom in
      let* f4 := index fields 4 in
      let* '(month, err) := field err f4 months in
      let* f5 := index fields 5 in
      let* '(dayofweek, err) := field err f5 dow in
      match err with
      | Some e => Err e
      | None =>
          Ok (Spec {| Sched_Second := second;
                      Sched_Minute := minute;
                      Sched_Hour := hour;
                      Sched_Dom := dayofmonth;
                      Sched_Month := month;
                      Sched_Dow := dayofweek;
                      Sched_Location := loc |})
      end.

(** ** standardParser, ParseStandard (parser.go, 220-234) *)

Definition standardParser : Parser :=
  {| options := Z.lor Minute (Z.lor Hour (Z.lor Dom (Z.lor Month (Z.lor Dow Descriptor)))) |}.

Definition ParseStandard (standardSpec : string) : go Schedule :=
  Parse standardParser standardSpec.

End Parse.

(** * Vocabulary of the properties *)

(** The call comes back, with a value or with an error. *)
Definition returns {A : Type} (m : go A) : Prop :=
  (exists a, m = Ok a) \/ (exists e, m = Err e).

(** [i] is one of [lo], [lo+step], [lo+2*step], ... and at most [hi]. *)
Definition stepped (lo hi step i : N) : bool :=
  (lo <=? i) && (i <=? hi) && ((i - lo) mod step =? 0).

(** Every set bit of [bits] is a value of the field or the wildcard bit. *)
Definition within (r : bounds) (bits : N) : Prop :=
  forall i, N.testbit bits i = true -> (r.(min) <= i /\ i <= r.(max)) \/ i = 63.

Definition schedule_within `{Time} (s : SpecSchedule) : Prop :=
  within seconds (Sched_Second s) /\ within minutes (Sched_Minute s) /\
  within hours (Sched_Hour s) /\ within dom (Sched_Dom s) /\
  within months (Sched_Month s) /\ within dow (Sched_Dow s).

(** [c] is one of the bytes of [s]. *)
Fixpoint occurs (c : ascii) (s : string) : bool :=
  match s with
  | EmptyString => false
  | String a s' => Ascii.eqb a c || occurs c s'
  end.

(** The number of bytes of [s] equal to [c]. *)
Fixpoint countByte (c : ascii) (s : string) : nat :=
  match s with
  | EmptyString => O
  | String a s' => if Ascii.eqb a c then S (countByte c s') else countByte c s'
  end.

(** The separator of the sub-expressions of a field. *)
Definition comma (c : ascii) : bool := Ascii.eqb c ",".

(** A token made of commas only. *)
Fixpoint onlyCommas (s : string) : bool :=
  match s with
  | EmptyString => true
  | String a s' => Ascii.eqb a "," && onlyCommas s'
  end.

(** The text of a sub-expression before its first [/], and the first token
    of that text. *)
Definition rangePart (expr : string) : string :=
  hd EmptyString (strings.Split expr "/").

Definition firstToken (s : string) : string :=
  hd EmptyString (strings.Split s "-").

Definition isWildcard (tok : string) : bool :=
  String.eqb tok "*" || String.eqb tok "?".

(** A sub-expression that sets the wildcard bit: its first token is [*] or
    [?], and it has no step or a step that reads as 1. *)
Definition wildcardExpr (expr : string) : bool :=
  isWildcard (firstToken (rangePart expr)) &&
  match strings.Split expr "/" with
  | [_] => true
  | [_; st] => match mustParseInt st with Ok 1 => true | _ => false end
  | _ => false
  end.

(** A field is configured when its flag or its optional flag is set. *)
Definition configured (options place : ParseOption) : bool :=
  has options place
  || ((place =? Second)%Z && has options SecondOptional)
  || ((place =? Dow)%Z && has options DowOptional).

(** The number of configured fields among [ps]. *)
Fixpoint countFields (cfg : ParseOption -> bool) (ps : list ParseOption) : nat :=
  match ps with
  | [] => O
  | place :: ps' => if cfg place then S (countFields cfg ps') else countFields cfg ps'
  end.

(** Section 4.4, step 5, in the words of the spec: each configured field
    takes the next token in order, each other field its default.  (A
    configured field that finds no token left keeps its default; the
    properties below only distribute enough tokens.) *)
Fixpoint distribute (cfg : ParseOption -> bool) (ps : list ParseOption)
    (dflt tokens : list string) : list string :=
  match ps, dflt with
  | place :: ps', d :: dflt' =>
      if cfg place
      then match tokens with
           | t :: tokens' => t :: distribute cfg ps' dflt' tokens'
           | [] => d :: distribute cfg ps' dflt' []
           end
      else d :: distribute cfg ps' dflt' tokens
  | _, _ => []
  end.

(** A package time that knows the zone UTC only, and keeps the text of a
    duration; it serves to run Parse on examples. *)
Definition utcOnly : Time :=
  {| Location := string;
     Local := "Local";
     LoadLocation := fun name =>
       if String.eqb name "UTC" then inl "UTC" else inr "unknown time zone";
     Duration := string;
     ParseDuration := fun text => inl text |}.

(** The number of fields a configuration selects, and the number of its
    optional flags. *)
Definition maxFields (options : ParseOption) : Z :=
  Z.of_nat (countFields (configured options) places).

Definition optionalFlags (options : ParseOption) : Z :=
  ((if has options SecondOptional then 1 else 0) +
   (if has options DowOptional then 1 else 0))%Z.

(** The tokens of a spec after normalizeFields has supplied the optional one
    that is missing: ["*"] at the end for an optional day of week, ["0"] in
    front for an optional second. *)
Definition completed (options : ParseOption) (fields : list string) : list string :=
  if (Z.of_nat (length fields) <? maxFields options)%Z
  then if has options DowOptional then fields ++ ["*"] else "0" :: fields
  else fields.

(** The six fields compiled in order, where the first error ends the
    compilation: what the closure [field] of Parse and the error variable it
    shares come to on a list of six fields (lemma [fields_short_circuit]). *)
Definition compileFields `{Time} (loc : Location) (fields : list string) : go Schedule :=
  match fields with
  | [f0; f1; f2; f3; f4; f5] =>
      let* second := getField f0 seconds in
      let* minute := getField f1 minutes in
      let* hour := getField f2 hours in
      let* dayofmonth := getField f3 dom in
      let* month := getField f4 months in
      let* dayofweek := getField f5 dow in
      Ok (Spec {| Sched_Second := second; Sched_Minute := minute; Sched_Hour := hour;
                  Sched_Dom := dayofmonth; Sched_Month := month; Sched_Dow := dayofweek;
                  Sched_Location := loc |})
  | _ => Panic IndexOutOfRange
  end.

(** The part of Parse that follows the time zone (parser.go, 113-155): a
    descriptor, or fields (lemma [Parse_parseSchedule]). *)
Definition parseSchedule `{Time} (p : Parser) (loc : Location) (spec : string) : go Schedule :=
  if strings.HasPrefix spec "@"
  then if (Z.land p.(options) Descriptor =? 0)%Z then Err (ErrNoDescriptors spec)
       else parseDescriptor spec loc
  else let* fields := normalizeFields (strings.Fields spec) p.(options) in
       compileFields loc fields.

(** The outcome [m] with the location of its schedule replaced by [loc]; an
    interval schedule, an error and a panic are left as they are. *)
Definition withLocation `{Time} (loc : Location) (m : go Schedule) : go Schedule :=
  match m with
  | Ok (Spec s) =>
      Ok (Spec {| Sched_Second := Sched_Second s; Sched_Minute := Sched_Minute s;
                  Sched_Hour := Sched_Hour s; Sched_Dom := Sched_Dom s;
                  Sched_Month := Sched_Month s; Sched_Dow := Sched_Dow s;
                  Sched_Location := loc |})
  | other => other
  end.

(** The descriptors of the switch of parseDescriptor (parser.go, 397-450). *)
Definition descriptorNames : list string :=
  ["@yearly"; "@annually"; "@monthly"; "@weekly"; "@daily"; "@midnight"; "@hourly"].

(** The two kinds of mask a descriptor gives a field: the field pinned to
    its minimum ([1 << r.min]), with the wildcard bit clear, or all legal
    values of the field ([all(r)]), with the wildcard bit set. *)
Definition pinnedOrAll (r : bounds) (bits : N) : Prop :=
  (bits = shl64 1 r.(min) /\ N.testbit bits 63 = false) \/
  (all r = Ok bits /\ N.testbit bits 63 = true).

(** A text made of ASCII bytes only (every byte below 0x80).  On such a text
    strings.Fields and strings.TrimSpace of Go take their ASCII paths, the
    ones [strings.Fields] and [strings.TrimSpace] above embed. *)
Fixpoint isASCII (s : string) : bool :=
  match s with
  | EmptyString => true
  | String a s' => (N_of_ascii a <? 128) && isASCII s'
  end.


(** * The model on concrete inputs *)

Example Split_steps : strings.Split "2-10/10" "/" = ["2-10"; "10"].
Proof. reflexivity. Qed.

Example Split_empty : strings.Split "" "-" = [""].
Proof. reflexivity. Qed.

Example Split_hyphens : strings.Split "5--5" "-" = ["5"; ""; "5"].
Proof. reflexivity. Qed.

Example Fields_spec : strings.Fields "  0 0  * * 0 " = ["0"; "0"; "*"; "*"; "0"].
Proof. reflexivity. Qed.

Example FieldsFunc_commas :
  strings.FieldsFunc ",1,,2-3," (fun r => Ascii.eqb r ",") = ["1"; "2-3"].
Proof. reflexivity. Qed.

Example TrimSpace_ex : strings.TrimSpace "  @weekly  " = "@weekly".
Proof. reflexivity. Qed.

Example Index_none : strings.Index "TZ=UTC" " " = (-1)%Z.
Proof. reflexivity. Qed.

Example Index_eq : strings.Index "CRON_TZ=UTC 0 0 * * *" "=" = 7%Z.
Proof. reflexivity. Qed.

Example Atoi_plus : strconv.Atoi "+15" = inl 15%Z.
Proof. reflexivity. Qed.

Example Atoi_neg : strconv.Atoi "-12" = inl (-12)%Z.
Proof. reflexivity. Qed.

Example Atoi_big : strconv.Atoi "9223372036854775808" = inr strconv.ErrRange.
Proof. reflexivity. Qed.

Example Atoi_bad : strconv.Atoi "1x" = inr strconv.ErrSyntax.
Proof. reflexivity. Qed.

Example Atoi_overflow_first :
  strconv.Atoi "99999999999999999999x" = inr strconv.ErrRange.
Proof. reflexivity. Qed.

Example Atoi_sign_only : strconv.Atoi "-" = inr strconv.ErrSyntax.
Proof. reflexivity. Qed.

Example getBits_shift : getBits 1 3 1 = Ok 14.
Proof. reflexivity. Qed.

Example getBits_loop_steps : getBits 10 40 10 = Ok (2 ^ 10 + 2 ^ 20 + 2 ^ 30 + 2 ^ 40).
Proof. reflexivity. Qed.

(** With a step of 0 the loop of getBits never ends; getRange rules the
    step out before it calls getBits. *)
Example getBits_step_0 : getBits 0 5 0 = NoReturn.
Proof. reflexivity. Qed.

Example getRange_star : getRange "*" seconds = Ok (2 ^ 60 - 1 + 2 ^ 63).
Proof. reflexivity. Qed.

Example getRange_full_range : getRange "0-59" seconds = Ok (2 ^ 60 - 1).
Proof. reflexivity. Qed.

Example getRange_single : getRange "3" dow = Ok (2 ^ 3).
Proof. reflexivity. Qed.

Example getRange_range_step :
  getRange "10-40/10" minutes = Ok (2 ^ 10 + 2 ^ 20 + 2 ^ 30 + 2 ^ 40).
Proof. reflexivity. Qed.

Example getRange_names : getRange "MON-Fri" dow = Ok (2 ^ 1 + 2 ^ 2 + 2 ^ 3 + 2 ^ 4 + 2 ^ 5).
Proof. vm_compute. reflexivity. Qed.

Example getRange_star_step : getRange "*/2" dom = Ok 2863311530.
Proof. reflexivity. Qed.

Example getRange_above : getRange "60" minutes = Err (ErrAboveMaximum 60 59 "60").
Proof. reflexivity. Qed.

Example getRange_below : getRange "0" dom = Err (ErrBelowMinimum 0 1 "0").
Proof. reflexivity. Qed.

Example getRange_beyond : getRange "5-2" minutes = Err (ErrBeyondEnd 5 2 "5-2").
Proof. reflexivity. Qed.

Example getRange_step_0 : getRange "*/0" minutes = Err (ErrStepNotPositive "*/0").
Proof. reflexivity. Qed.

Example getRange_negative_step :
  getRange "*/-12" minutes = Err (ErrNegative (-12) "-12").
Proof. reflexivity. Qed.

Example getRange_hyphens : getRange "5--5" minutes = Err (ErrTooManyHyphens "5--5").
Proof. reflexivity. Qed.

Example getRange_slashes : getRange "1/2/3" minutes = Err (ErrTooManySlashes "1/2/3").
Proof. reflexivity. Qed.

Example getField_list : getField "1,3,5-7" hours = Ok (2 ^ 1 + 2 ^ 3 + 2 ^ 5 + 2 ^ 6 + 2 ^ 7).
Proof. reflexivity. Qed.

Example NewParser_standard :
  NewParser (Z.lor Minute (Z.lor Hour (Z.lor Dom (Z.lor Month (Z.lor Dow Descriptor))))) =
  Ok standardParser.
Proof. reflexivity. Qed.

Example NewParser_two_optionals :
  NewParser (Z.lor SecondOptional DowOptional) =
  Panic (PanicMsg "multiple optionals may not be configured").
Proof. reflexivity. Qed.

Example normalizeFields_second_given :
  normalizeFields ["1"; "2"; "3"; "4"; "5"; "6"]
    (Z.lor SecondOptional (Z.lor Minute (Z.lor Hour (Z.lor Dom (Z.lor Month Dow))))) =
  Ok ["1"; "2"; "3"; "4"; "5"; "6"].
Proof. reflexivity. Qed.

Example normalizeFields_dow_missing :
  normalizeFields ["15"; "*/3"] (Z.lor Dom (Z.lor Month DowOptional)) =
  Ok ["0"; "0"; "0"; "15"; "*/3"; "*"].
Proof. reflexivity. Qed.

Example normalizeFields_count :
  normalizeFields ["*"; "*"; "*"; "*"] (options standardParser) =
  Err (ErrExpectedExactly 5 4 ["*"; "*"; "*"; "*"]).
Proof. reflexivity. Qed.

Example Parse_timezone :
  @ParseStandard utcOnly "TZ=UTC 0 0 * * *" =
  Ok (Spec (@Build_SpecSchedule utcOnly 1 1 1 (2 ^ 32 - 2 + 2 ^ 63)
              (2 ^ 13 - 2 + 2 ^ 63) (2 ^ 7 - 1 + 2 ^ 63) "UTC")).
Proof. vm_compute. reflexivity. Qed.

Example Parse_bad_location :
  @ParseStandard utcOnly "TZ=Nowhere 0 0 * * *" =
  Err (ErrBadLocation "Nowhere" "unknown time zone").
Proof. vm_compute. reflexivity. Qed.

Example Parse_first_error :
  @ParseStandard utcOnly "* * x * y" = Err (ErrParseInt "x" strconv.ErrSyntax).
Proof. vm_compute. reflexivity. Qed.

Example Parse_every :
  @ParseStandard utcOnly "@every 1h30m" = Ok (@Every utcOnly "1h30m").
Proof. vm_compute. reflexivity. Qed.

Example Parse_no_descriptors :
  @Parse utcOnly {| options := Z.lor Minute Hour |} "@daily" = Err (ErrNoDescriptors "@daily").
Proof. vm_compute. reflexivity. Qed.

(** * Properties *)

(** ** Outcomes *)

Lemma bind_Ok {A B : Type} (m : go A) (k : A -> go B) (b : B) :
  bind m k = Ok b -> exists a, m = Ok a /\ k a = Ok b.
Proof. destruct m; simpl; intros E; try discriminate. eauto. Qed.

Lemma returns_Ok {A : Type} (a : A) : returns (Ok a).
Proof. left. eauto. Qed.

Lemma returns_Err {A : Type} (e : error) : returns (Err (A := A) e).
Proof. right. eauto. Qed.

Lemma returns_bind {A B : Type} (m : go A) (k : A -> go B) :
  returns m -> (forall a, returns (k a)) -> returns (bind m k).
Proof.
  intros [[a ->]|[e ->]] Hk; cbn [bind]; [apply Hk|apply returns_Err].
Qed.

Create HintDb go.
#[local] Hint Resolve returns_Ok returns_Err : go.

Ltac go_returns := solve [cbn [bind]; auto with go].

Lemma index_0 {A : Type} (x : A) (l : list A) : index (x :: l) 0 = Ok x.
Proof. reflexivity. Qed.

Lemma index_1 {A : Type} (x y : A) (l : list A) : index (x :: y :: l) 1 = Ok y.
Proof. reflexivity. Qed.

(** ** Bits of the 64-bit operations *)

Lemma testbit_MaxUint64 (i : N) : N.testbit MaxUint64 i = (i <? 64).
Proof.
  change MaxUint64 with (N.ones 64).
  destruct (N.ltb_spec i 64).
  - now apply N.ones_spec_low.
  - now apply N.ones_spec_high.
Qed.

Lemma testbit_shl64 (x k i : N) :
  N.testbit (shl64 x k) i = (i <? 64) && (k <=? i) && N.testbit x (i - k).
Proof.
  unfold shl64.
  destruct (N.leb_spec 64 k) as [Hk|Hk].
  - rewrite N.bits_0.
    destruct (N.ltb_spec i 64); [|reflexivity].
    destruct (N.leb_spec k i); [lia|reflexivity].
  - destruct (N.ltb_spec i 64) as [Hi|Hi].
    + rewrite N.mod_pow2_bits_low by assumption.
      destruct (N.leb_spec k i).
      * now rewrite N.shiftl_spec_high' by assumption.
      * now rewrite N.shiftl_spec_low by assumption.
    + now rewrite N.mod_pow2_bits_high by assumption.
Qed.

Lemma testbit_not64 (x i : N) :
  N.testbit (not64 x) i = xorb (N.testbit x i) (i <? 64).
Proof. unfold not64. now rewrite N.lxor_spec, testbit_MaxUint64. Qed.

Lemma testbit_one (i : N) : N.testbit 1 i = (i =? 0).
Proof.
  destruct (N.eqb_spec i 0) as [->|Hi]; [reflexivity|].
  change 1 with (2 ^ 0). apply N.pow2_bits_false. lia.
Qed.

Lemma testbit_starBit (i : N) : N.testbit starBit i = (i =? 63).
Proof. unfold starBit. rewrite N.pow2_bits_eqb. apply N.eqb_sym. Qed.

(** ** What getBits computes *)

Lemma stepped_unfold (lo hi step i : N) :
  1 <= step -> lo <= hi ->
  stepped lo hi step i = (i =? lo) || stepped (lo + step) hi step i.
Proof.
  intros Hs Hlh. unfold stepped.
  destruct (N.eqb_spec i lo) as [->|Hne].
  - rewrite N.sub_diag, N.Div0.mod_0_l.
    rewrite N.leb_refl. simpl.
    destruct (N.leb_spec lo hi); [reflexivity|lia].
  - simpl.
    destruct (N.leb_spec (lo + step) i) as [Hge|Hlt].
    + destruct (N.leb_spec lo i); [|lia]. simpl.
      replace (i - lo) with ((i - (lo + step)) + 1 * step) by lia.
      now rewrite N.Div0.mod_add.
    + simpl. destruct (N.leb_spec lo i) as [Hli|]; [|reflexivity]. simpl.
      rewrite N.mod_small by lia.
      destruct (N.eqb_spec (i - lo) 0); [lia|].
      now rewrite andb_false_r.
Qed.

Lemma stepped_empty (lo hi step i : N) : hi < lo -> stepped lo hi step i = false.
Proof.
  intros Hlt. unfold stepped.
  destruct (N.leb_spec lo i); [|reflexivity].
  destruct (N.leb_spec i hi); [lia|reflexivity].
Qed.

Lemma getBits_loop_spec (max step : N) :
  1 <= step -> max + step < 2 ^ 64 ->
  forall (fuel : nat) (i bits : N),
    i <= max + step ->
    (N.to_nat (max + 1 - i) < fuel)%nat ->
    exists b, getBits_loop fuel i max step bits = Some b /\
      forall j, N.testbit b j = N.testbit bits j || ((j <? 64) && stepped i max step j).
Proof.
  intros Hs Hw. induction fuel as [|fuel IH]; intros i bits Hi Hf; [lia|].
  simpl. destruct (N.leb_spec i max) as [Hle|Hgt].
  - assert (Hadd : uadd i step = i + step).
    { unfold uadd. apply N.mod_small. lia. }
    rewrite Hadd.
    destruct (IH (i + step) (N.lor bits (shl64 1 i))) as (b & Hb & Hbits); [lia|lia|].
    exists b. split; [exact Hb|].
    intros j. rewrite Hbits, N.lor_spec, testbit_shl64, testbit_one.
    rewrite (stepped_unfold i max step j) by lia.
    destruct (N.ltb_spec j 64); simpl; [|now rewrite !orb_false_r].
    destruct (N.eqb_spec j i) as [->|Hne].
    + rewrite N.leb_refl, N.sub_diag. simpl. now rewrite orb_true_r.
    + destruct (N.leb_spec i j); simpl; [|now rewrite orb_false_r].
      destruct (N.eqb_spec (j - i) 0); [lia|]. simpl. now rewrite orb_false_r.
  - exists bits. split; [reflexivity|].
    intros j. rewrite stepped_empty by assumption.
    now rewrite andb_false_r, orb_false_r.
Qed.

(** With a step of at least 1 and no wrap-around of the counter, getBits
    returns, and its bits are the stepped values below 64. *)
Lemma getBits_spec (lo hi step : N) :
  1 <= step -> hi + step < 2 ^ 64 ->
  exists bits, getBits lo hi step = Ok bits /\
    forall i, N.testbit bits i = (i <? 64) && stepped lo hi step i.
Proof.
  intros Hs Hw. unfold getBits.
  destruct (N.eqb_spec step 1) as [->|Hne].
  - eexists. split; [reflexivity|].
    intros i. rewrite N.land_spec, testbit_not64, !testbit_shl64, !testbit_MaxUint64.
    assert (Hadd : uadd hi 1 = hi + 1) by (unfold uadd; apply N.mod_small; lia).
    rewrite Hadd. unfold stepped. rewrite N.mod_1_r. simpl.
    destruct (N.ltb_spec i 64) as [Hi|Hi]; simpl; [|reflexivity].
    destruct (N.leb_spec (hi + 1) i), (N.leb_spec lo i), (N.leb_spec i hi);
      simpl; try lia; try reflexivity;
      repeat match goal with
             | |- context [?a - ?b <? 64] => destruct (N.ltb_spec (a - b) 64); try lia
             end; reflexivity.
  - destruct (N.le_gt_cases lo (hi + step)) as [Hlo|Hlo].
    + destruct (getBits_loop_spec hi step Hs Hw (N.to_nat (hi - lo) + 2) lo 0 Hlo)
        as (b & Hb & Hbits); [lia|].
      rewrite Hb. exists b. split; [reflexivity|].
      intros i. rewrite Hbits, N.bits_0. reflexivity.
    + replace (N.to_nat (hi - lo) + 2)%nat with (S (S O)) by lia.
      simpl. destruct (N.leb_spec lo hi); [lia|].
      exists 0. split; [reflexivity|].
      intros i. rewrite N.bits_0, stepped_empty by lia.
      now rewrite andb_false_r.
Qed.

(** ** Splitting strings *)

Lemma Split_length (s : string) (c : ascii) :
  length (strings.Split s c) = S (countByte c s).
Proof.
  induction s as [|a s IH]; simpl; [reflexivity|].
  destruct (Ascii.eqb a c); simpl; [now rewrite IH|].
  destruct (strings.Split s c); simpl in *; congruence.
Qed.

Lemma Split_absent (s : string) (c : ascii) :
  occurs c s = false -> strings.Split s c = [s].
Proof.
  induction s as [|a s IH]; simpl; [reflexivity|].
  intros Ho. apply orb_false_iff in Ho as [Ha Hs].
  rewrite Ha, (IH Hs). reflexivity.
Qed.

Lemma Split_app (a b : string) (c : ascii) :
  occurs c a = false ->
  strings.Split (a +:+ String c b) c = a :: strings.Split b c.
Proof.
  induction a as [|x a IH]; simpl.
  - intros _. now rewrite Ascii.eqb_refl.
  - intros Ho. apply orb_false_iff in Ho as [Hx Ha].
    rewrite Hx, (IH Ha). reflexivity.
Qed.

(** ** Integers in decimal *)

Lemma digits_occurs (c : ascii) (s : string) :
  strconv.digit c = None ->
  forall acc n, strconv.digits acc s = inl n -> occurs c s = false.
Proof.
  intros Hc. induction s as [|a s IH]; intros acc n Hd; [reflexivity|].
  cbn [strconv.digits] in Hd.
  destruct (strconv.digit a) as [d|] eqn:Ha; [|discriminate].
  destruct (2 ^ 64 <=? acc * 10 + d)%Z; [discriminate|].
  cbn [occurs].
  destruct (Ascii.eqb_spec a c) as [->|_]; [congruence|].
  simpl. eapply IH, Hd.
Qed.

Lemma Atoi_occurs (c : ascii) (s : string) (v : Z) :
  strconv.digit c = None -> c <> "-"%char -> c <> "+"%char ->
  strconv.Atoi s = inl v -> occurs c s = false.
Proof.
  intros Hc Hm Hp. unfold strconv.Atoi. destruct s as [|a s]; [discriminate|].
  destruct (Ascii.eqb a "-" || Ascii.eqb a "+") eqn:Hsign.
  - replace (if Ascii.eqb a "-" || Ascii.eqb a "+" then s else String a s)
      with s by now rewrite Hsign.
    destruct s as [|b s]; [discriminate|].
    destruct (strconv.digits 0 (String b s)) as [n|err] eqn:Hd; [|discriminate].
    intros _. cbn [occurs].
    assert (Hac : Ascii.eqb a c = false).
    { apply Ascii.eqb_neq. intros ->.
      apply orb_true_iff in Hsign as [E|E]; apply Ascii.eqb_eq in E; congruence. }
    rewrite Hac. apply (digits_occurs c (String b s) Hc 0%Z n Hd).
  - replace (if Ascii.eqb a "-" || Ascii.eqb a "+" then s else String a s)
      with (String a s) by now rewrite Hsign.
    destruct (strconv.digits 0 (String a s)) as [n|err] eqn:Hd; [|discriminate].
    intros _. apply (digits_occurs c (String a s) Hc 0%Z n Hd).
Qed.

Lemma Atoi_range (s : string) (v : Z) :
  strconv.Atoi s = inl v -> (- 2 ^ 63 <= v < 2 ^ 63)%Z.
Proof.
  unfold strconv.Atoi. destruct s as [|a s]; [discriminate|].
  cbv zeta.
  destruct (if Ascii.eqb a "-" || Ascii.eqb a "+" then s else String a s) as [|b body];
    [discriminate|].
  destruct (strconv.digits 0 (String b body)) as [n|err]; [|discriminate].
  match goal with
  | |- context [if ?c then inl ?w else _] => destruct c eqn:Hr; [|discriminate]
  end.
  intros [= <-]. apply andb_true_iff in Hr as [H1 H2].
  apply Z.leb_le in H1. apply Z.ltb_lt in H2. lia.
Qed.

Lemma mustParseInt_Ok (expr : string) (n : N) :
  mustParseInt expr = Ok n ->
  strconv.Atoi expr = inl (Z.of_N n) /\ n < 2 ^ 63.
Proof.
  unfold mustParseInt. destruct (strconv.Atoi expr) as [v|e] eqn:Ha; [|discriminate].
  destruct (Z.ltb_spec v 0); [discriminate|].
  intros [= <-]. apply Atoi_range in Ha as Hr.
  rewrite Z2N.id by assumption. split; [reflexivity|lia].
Qed.

Lemma mustParseInt_slash (expr : string) (n : N) :
  mustParseInt expr = Ok n -> occurs "/" expr = false.
Proof.
  intros Hm. apply mustParseInt_Ok in Hm as [Ha _].
  eapply Atoi_occurs; [reflexivity|discriminate|discriminate|exact Ha].
Qed.

(** mustParseInt and parseIntOrName return a number or an error: they never
    panic and have no loop. *)
Lemma mustParseInt_total (expr : string) : returns (mustParseInt expr).
Proof.
  unfold mustParseInt. destruct (strconv.Atoi expr) as [v|e]; [|apply returns_Err].
  destruct (v <? 0)%Z; [apply returns_Err|apply returns_Ok].
Qed.

Lemma parseIntOrName_total (expr : string) (names : option (gmap string N)) :
  returns (parseIntOrName expr names).
Proof.
  unfold parseIntOrName. destruct names as [table|]; [|apply mustParseInt_total].
  destruct (table !! strings.ToLower expr); [apply returns_Ok|apply mustParseInt_total].
Qed.

(** ** What getRange accepts *)

Lemma Split_cons (s : string) (c : ascii) :
  exists piece rest, strings.Split s c = piece :: rest.
Proof.
  destruct (strings.Split s c) as [|piece rest] eqn:E; [|eauto].
  pose proof (Split_length s c) as Hl. rewrite E in Hl. discriminate.
Qed.

Lemma getRange_Ok_inv (expr : string) (r : bounds) (b : N) :
  getRange expr r = Ok b ->
  exists start end_ step extra bits,
    getRange_resolve expr r = Ok (start, end_, step, extra) /\
    r.(min) <= start /\ start <= end_ /\ end_ <= r.(max) /\ 1 <= step /\
    getBits start end_ step = Ok bits /\ b = N.lor bits extra.
Proof.
  unfold getRange. intros Hg.
  apply bind_Ok in Hg as ([[[start end_] step] extra] & Hres & Hchk).
  unfold getRange_check in Hchk.
  destruct (N.ltb_spec start r.(min)); [discriminate|].
  destruct (N.ltb_spec r.(max) end_); [discriminate|].
  destruct (N.ltb_spec end_ start); [discriminate|].
  destruct (N.eqb_spec step 0); [discriminate|].
  apply bind_Ok in Hchk as (bits & Hbits & [= <-]).
  exists start, end_, step, extra, bits. repeat split; try assumption; lia.
Qed.

(** The step of an accepted sub-expression fits a Go [int], and the wildcard
    bit it carries is the one [wildcardExpr] reads off its text. *)
Lemma resolve_facts (expr : string) (r : bounds) (start end_ step extra : N) :
  getRange_resolve expr r = Ok (start, end_, step, extra) ->
  step < 2 ^ 63 /\ (1 <= step -> extra = if wildcardExpr expr then starBit else 0).
Proof.
  unfold getRange_resolve, wildcardExpr, rangePart, firstToken.
  destruct (Split_cons expr "/") as (r0 & rs & ->).
  rewrite index_0. cbn [bind hd].
  destruct (Split_cons r0 "-") as (l0 & ls & ->).
  rewrite index_0. cbn [bind hd]. fold (isWildcard l0).
  intros Hr. apply bind_Ok in Hr as ([[s0 e0] x0] & Hfirst & Hrest).
  assert (Hx : x0 = if isWildcard l0 then starBit else 0).
  { destruct (isWildcard l0); [now inversion Hfirst|].
    apply bind_Ok in Hfirst as (n & _ & Hlen).
    destruct ls as [|l1 [|l2 ls]]; cbn [length] in Hlen.
    - now inversion Hlen.
    - rewrite index_1 in Hlen. cbn [bind] in Hlen.
      apply bind_Ok in Hlen as (m & _ & Hm). now inversion Hm.
    - discriminate. }
  destruct rs as [|r1 [|r2 rs]]; cbn [length] in Hrest.
  - inversion Hrest; subst. split; [reflexivity|].
    intros _. now rewrite andb_true_r.
  - rewrite index_1 in Hrest. cbn [bind] in Hrest.
    apply bind_Ok in Hrest as (st & Hst & Hok). inversion Hok; subst. clear Hok.
    rewrite Hst. apply mustParseInt_Ok in Hst as [_ Hlt]. split; [exact Hlt|].
    intros Hone. destruct (N.ltb_spec 1 step) as [Hgt|Hle].
    + destruct step as [|[p|p|]]; try lia; now rewrite andb_false_r.
    + assert (step = 1) as -> by lia. now rewrite andb_true_r.
  - discriminate.
Qed.

(** The bits of an accepted sub-expression. *)
Lemma getRange_Ok_bits (expr : string) (r : bounds) (b : N) :
  r.(max) < 2 ^ 63 ->
  getRange expr r = Ok b ->
  exists start end_ step,
    r.(min) <= start /\ end_ <= r.(max) /\ 1 <= step /\
    forall i, N.testbit b i =
      ((i <? 64) && stepped start end_ step i) || (wildcardExpr expr && (i =? 63)).
Proof.
  intros Hmax Hg.
  apply getRange_Ok_inv in Hg
    as (start & end_ & step & extra & bits & Hres & H1 & H2 & H3 & H4 & Hbits & ->).
  apply resolve_facts in Hres as [Hstep Hextra]. specialize (Hextra H4).
  destruct (getBits_spec start end_ step H4) as (bits' & Hb' & Hspec).
  { assert (2 ^ 63 + 2 ^ 63 = 2 ^ 64) by reflexivity. lia. }
  rewrite Hbits in Hb'. injection Hb' as <-.
  exists start, end_, step. repeat split; try assumption.
  intros i. rewrite N.lor_spec, Hspec, Hextra.
  destruct (wildcardExpr expr); [rewrite testbit_starBit|rewrite N.bits_0];
    reflexivity.
Qed.

(** getRange_resolve comes back: the indexes it takes exist, and it has no
    loop. *)
Lemma getRange_resolve_returns (expr : string) (r : bounds) :
  returns (getRange_resolve expr r).
Proof.
  unfold getRange_resolve.
  destruct (Split_cons expr "/") as (r0 & rs & ->).
  rewrite index_0. cbn [bind].
  destruct (Split_cons r0 "-") as (l0 & ls & ->).
  rewrite index_0. cbn [bind].
  apply returns_bind.
  - destruct (_ || _)%bool; [go_returns|].
    apply returns_bind; [apply parseIntOrName_total|]. intros start.
    destruct ls as [|l1 [|l2 ls]]; cbn [length]; [go_returns| |go_returns].
    rewrite index_1. cbn [bind].
    apply returns_bind; [apply parseIntOrName_total|]. intros end_. go_returns.
  - intros [[start end_] extra].
    destruct rs as [|r1 [|r2 rs]]; cbn [length]; [go_returns| |go_returns].
    rewrite index_1. cbn [bind].
    apply returns_bind; [apply mustParseInt_total|]. intros step. go_returns.
Qed.

(** On bounds that fit a Go int, as those of the six fields do, getRange and
    getField come back: the loop of getBits ends within its fuel. *)
Lemma getRange_returns (expr : string) (r : bounds) :
  r.(max) < 2 ^ 63 -> returns (getRange expr r).
Proof.
  intros Hmax. unfold getRange.
  destruct (getRange_resolve_returns expr r) as [[[[[start end_] step] extra] Hres]|[e ->]];
    [|go_returns].
  rewrite Hres. cbn [bind]. apply resolve_facts in Hres as [Hstep _].
  unfold getRange_check.
  destruct (N.ltb_spec start r.(min)); [go_returns|].
  destruct (N.ltb_spec r.(max) end_); [go_returns|].
  destruct (N.ltb_spec end_ start); [go_returns|].
  destruct (N.eqb_spec step 0); [go_returns|].
  destruct (getBits_spec start end_ step) as (bits & -> & _); [lia| |go_returns].
  assert (2 ^ 63 + 2 ^ 63 = 2 ^ 64) by reflexivity. lia.
Qed.

(** ** What getField accepts *)

Lemma getField_loop_Ok (ranges : list string) (r : bounds) :
  forall acc bits,
    getField_loop ranges r acc = Ok bits ->
    exists masks,
      Forall2 (fun expr m => getRange expr r = Ok m) ranges masks /\
      forall i, N.testbit bits i = N.testbit acc i || existsb (fun m => N.testbit m i) masks.
Proof.
  induction ranges as [|expr ranges IH]; simpl; intros acc bits Hl.
  - injection Hl as <-. exists []. split; [constructor|].
    intros i. simpl. now rewrite orb_false_r.
  - apply bind_Ok in Hl as (m & Hm & Hrest).
    apply IH in Hrest as (masks & Hall & Hbits).
    exists (m :: masks). split; [now constructor|].
    intros i. rewrite Hbits, N.lor_spec. simpl. now rewrite orb_assoc.
Qed.

Lemma getField_returns (field : string) (r : bounds) :
  r.(max) < 2 ^ 63 -> returns (getField field r).
Proof.
  intros Hmax. unfold getField. generalize 0.
  induction (strings.FieldsFunc field _) as [|expr ranges IH]; intros acc; cbn [getField_loop].
  - apply returns_Ok.
  - apply returns_bind; [now apply getRange_returns|]. intros bit. apply IH.
Qed.

(** ** Steps *)

Lemma getRange_check_Ok (expr : string) (r : bounds) (start end_ step extra : N) :
  r.(min) <= start -> start <= end_ -> end_ <= r.(max) ->
  1 <= step -> r.(max) + step < 2 ^ 64 ->
  exists bits,
    getRange_check expr r start end_ step extra = Ok (N.lor bits extra) /\
    forall i, N.testbit bits i = (i <? 64) && stepped start end_ step i.
Proof.
  intros H1 H2 H3 H4 H5. unfold getRange_check.
  destruct (N.ltb_spec start r.(min)); [lia|].
  destruct (N.ltb_spec r.(max) end_); [lia|].
  destruct (N.ltb_spec end_ start); [lia|].
  destruct (N.eqb_spec step 0); [lia|].
  destruct (getBits_spec start end_ step H4) as (bits & -> & Hbits); [lia|].
  exists bits. split; [reflexivity|exact Hbits].
Qed.

Lemma Split_wildcard_step (w : ascii) (t : string) :
  w <> "/"%char -> occurs "/" t = false ->
  strings.Split (String w (String "/" t)) "/" = [String w EmptyString; t].
Proof.
  intros Hw Ht.
  change (String w (String "/" t)) with (String w EmptyString +:+ String "/" t).
  rewrite Split_app, (Split_absent t) by (try assumption; simpl;
    now rewrite (proj2 (Ascii.eqb_neq w "/") Hw)).
  reflexivity.
Qed.

(** Claim C1, as the code has it.  For a field with bounds min <= max < 63
    and a step text that reads as [s >= 1], the sub-expressions [*/s] and
    [?/s] compile to the bits of min, min+s, min+2s, ... up to max.  The
    wildcard bit (bit 63) depends on the step: it is set when [s = 1] and
    clear when [s > 1]. *)
Theorem wildcard_step_bits (r : bounds) (w : ascii) (t : string) (s : N) :
  w = "*"%char \/ w = "?"%char ->
  mustParseInt t = Ok s -> 1 <= s ->
  r.(min) <= r.(max) -> r.(max) < 63 ->
  exists bits,
    getRange (String w (String "/" t)) r = Ok bits /\
    (forall i, i <> 63 -> N.testbit bits i = stepped r.(min) r.(max) s i) /\
    N.testbit bits 63 = (s =? 1).
Proof.
  intros Hw Hm Hs Hr Hmax.
  pose proof (mustParseInt_slash t s Hm) as Hslash.
  pose proof (mustParseInt_Ok t s Hm) as [_ Hlt].
  assert (Hres : getRange_resolve (String w (String "/" t)) r =
                 Ok (r.(min), r.(max), s, if 1 <? s then 0 else starBit)).
  { unfold getRange_resolve. rewrite Split_wildcard_step by (try assumption; destruct Hw; subst; discriminate).
    rewrite index_0, index_1. cbn [bind length].
    destruct Hw as [-> | ->]; cbn; rewrite Hm; reflexivity. }
  unfold getRange. rewrite Hres. cbn [bind].
  destruct (getRange_check_Ok (String w (String "/" t)) r r.(min) r.(max) s
              (if 1 <? s then 0 else starBit)) as (bits & -> & Hbits); try lia.
  eexists. split; [reflexivity|]. split.
  - intros i Hi. rewrite N.lor_spec, Hbits.
    assert (Hx : N.testbit (if 1 <? s then 0 else starBit) i = false).
    { destruct (1 <? s); [apply N.bits_0|]. rewrite testbit_starBit.
      now apply N.eqb_neq. }
    rewrite Hx, orb_false_r.
    destruct (N.ltb_spec i 64); [reflexivity|].
    unfold stepped. destruct (N.leb_spec i r.(max)); [lia|].
    now rewrite andb_false_r.
  - rewrite N.lor_spec, Hbits.
    unfold stepped. destruct (N.leb_spec 63 r.(max)); [lia|].
    rewrite andb_false_r. simpl.
    destruct (N.ltb_spec 1 s), (N.eqb_spec s 1); try lia.
    + apply N.bits_0.
    + reflexivity.
Qed.

(** Claim C3.  A sub-expression [N/s] whose [N] is a single value (no [-],
    not a wildcard) that resolves to [n] within the bounds, with a step that
    reads as [s >= 1], compiles to the bits of n, n+s, n+2s, ... up to the
    field maximum, and to no other bit: the wildcard bit is clear.  In
    particular [5/15] on the minutes gives exactly the bits 5, 20, 35, 50. *)
Theorem value_step_bits (r : bounds) (tN tS : string) (n s : N) :
  occurs "/" tN = false -> occurs "-" tN = false -> isWildcard tN = false ->
  parseIntOrName tN r.(names) = Ok n -> mustParseInt tS = Ok s ->
  r.(min) <= n -> n <= r.(max) -> 1 <= s -> r.(max) < 63 ->
  (exists bits,
     getRange (tN +:+ String "/" tS) r = Ok bits /\
     (forall i, N.testbit bits i = stepped n r.(max) s i) /\
     N.testbit bits 63 = false) /\
  getRange "5/15" minutes = Ok (2 ^ 5 + 2 ^ 20 + 2 ^ 35 + 2 ^ 50).
Proof.
  intros Hslash Hhyphen Hwild Hn Hs Hlo Hhi Hstep Hmax.
  split; [|reflexivity].
  pose proof (mustParseInt_slash tS s Hs) as HslashS.
  pose proof (mustParseInt_Ok tS s Hs) as [_ Hlt].
  assert (Hres : getRange_resolve (tN +:+ String "/" tS) r = Ok (n, r.(max), s, 0)).
  { unfold getRange_resolve.
    rewrite (Split_app tN tS "/" Hslash), (Split_absent tS "/" HslashS).
    rewrite index_0, index_1. cbn [bind].
    rewrite (Split_absent tN "-" Hhyphen), index_0. cbn [bind length].
    fold (isWildcard tN). rewrite Hwild, Hn. cbn [bind]. rewrite Hs. cbn.
    now destruct (1 <? s). }
  unfold getRange. rewrite Hres. cbn [bind].
  destruct (getRange_check_Ok (tN +:+ String "/" tS) r n r.(max) s 0)
    as (bits & -> & Hbits); try lia.
  assert (Hall : forall i, N.testbit (N.lor bits 0) i = stepped n r.(max) s i).
  { intros i. rewrite N.lor_0_r, Hbits.
    destruct (N.ltb_spec i 64); [reflexivity|].
    unfold stepped. destruct (N.leb_spec i r.(max)); [lia|].
    now rewrite andb_false_r. }
  eexists. split; [reflexivity|]. split; [exact Hall|].
  rewrite Hall. unfold stepped.
  destruct (N.leb_spec 63 r.(max)); [lia|]. now rewrite andb_false_r.
Qed.

(** ** Errors of getRange *)

(** Claim C4, as the code has it.  A sub-expression whose range part has
    more than one [-] and does not start with the token [*] or [?] yields an
    error and no mask: the error "too many hyphens" when its first token
    resolves to a number, and otherwise the very error that resolving its
    first token gives. *)
Theorem too_many_hyphens (expr : string) (r : bounds) :
  (1 < countByte "-" (rangePart expr))%nat ->
  isWildcard (firstToken (rangePart expr)) = false ->
  (exists e, getRange expr r = Err e) /\
  (forall n, parseIntOrName (firstToken (rangePart expr)) r.(names) = Ok n ->
             getRange expr r = Err (ErrTooManyHyphens expr)) /\
  (forall e, parseIntOrName (firstToken (rangePart expr)) r.(names) = Err e ->
             getRange expr r = Err e).
Proof.
  unfold rangePart, firstToken, getRange, getRange_resolve.
  destruct (Split_cons expr "/") as (r0 & rs & ->). cbn [hd].
  rewrite index_0. cbn [bind].
  intros Hcount. pose proof (Split_length r0 "-") as Hlen.
  destruct (strings.Split r0 "-") as [|l0 [|l1 [|l2 ls]]]; cbn [length] in Hlen; try lia.
  cbn [hd]. intros Hwild.
  rewrite index_0. cbn [bind length]. fold (isWildcard l0). rewrite Hwild.
  destruct (parseIntOrName_total l0 r.(names)) as [[n Hn]|[e He]].
  - rewrite Hn. cbn [bind]. split; [eauto|]. split; [intros _ _; reflexivity|].
    intros e He. discriminate.
  - rewrite He. cbn [bind]. split; [eauto|]. split; [intros n Hn; discriminate|].
    intros e' [= <-]. reflexivity.
Qed.

Lemma getBits_no_error (lo hi step : N) :
  (exists bits, getBits lo hi step = Ok bits) \/ getBits lo hi step = NoReturn.
Proof.
  unfold getBits. destruct (step =? 1); [eauto|].
  destruct (getBits_loop _ _ _ _ _); eauto.
Qed.

(** Claim C5, as the code has it.  Once start, end and step of a
    sub-expression are resolved, getRange returns an error exactly when
    start < min, or end > max, or start > end, or step = 0.  The checks are
    made in that order; each error carries the text of the sub-expression,
    the first three also the offending value and the bound it violates; the
    error of a step of 0 carries the sub-expression only, and no number. *)
Theorem range_checks (expr : string) (r : bounds) (start end_ step extra : N) :
  getRange_resolve expr r = Ok (start, end_, step, extra) ->
  (start < r.(min) ->
     getRange expr r = Err (ErrBelowMinimum start r.(min) expr)) /\
  (r.(min) <= start -> r.(max) < end_ ->
     getRange expr r = Err (ErrAboveMaximum end_ r.(max) expr)) /\
  (r.(min) <= start -> end_ <= r.(max) -> end_ < start ->
     getRange expr r = Err (ErrBeyondEnd start end_ expr)) /\
  (r.(min) <= start -> end_ <= r.(max) -> start <= end_ -> step = 0 ->
     getRange expr r = Err (ErrStepNotPositive expr)) /\
  ((exists e, getRange expr r = Err e) <->
     start < r.(min) \/ r.(max) < end_ \/ end_ < start \/ step = 0).
Proof.
  intros Hres. unfold getRange. rewrite Hres. cbn [bind]. unfold getRange_check.
  destruct (N.ltb_spec start r.(min)) as [H1|H1].
  { repeat split; try (intros; lia); eauto. }
  destruct (N.ltb_spec r.(max) end_) as [H2|H2].
  { repeat split; try (intros; lia); eauto. }
  destruct (N.ltb_spec end_ start) as [H3|H3].
  { repeat split; try (intros; lia); eauto. }
  destruct (N.eqb_spec step 0) as [H4|H4].
  { repeat split; try (intros; lia); eauto. }
  repeat split; try (intros; lia).
  intros [e He]. destruct (getBits_no_error start end_ step) as [[b Hb]|Hb];
    rewrite Hb in He; discriminate.
Qed.

(** ** The wildcard bit and the bounds of a mask *)

Lemma getRange_star_bit (expr : string) (r : bounds) (b : N) :
  r.(max) < 63 -> getRange expr r = Ok b -> N.testbit b 63 = wildcardExpr expr.
Proof.
  intros Hmax Hg.
  apply getRange_Ok_bits in Hg as (start & end_ & step & H1 & H2 & H3 & Hbits); [|lia].
  rewrite Hbits. unfold stepped.
  destruct (N.leb_spec 63 end_); [lia|].
  rewrite andb_false_r, andb_false_r. simpl. now rewrite andb_true_r.
Qed.

Lemma getRange_within (expr : string) (r : bounds) (b : N) :
  r.(max) < 2 ^ 63 -> getRange expr r = Ok b -> within r b.
Proof.
  intros Hmax Hg i Hi.
  apply getRange_Ok_bits in Hg as (start & end_ & step & H1 & H2 & H3 & Hbits); [|lia].
  rewrite Hbits in Hi. apply orb_true_iff in Hi as [Hi|Hi].
  - left. unfold stepped in Hi.
    apply andb_true_iff in Hi as [_ Hi]. apply andb_true_iff in Hi as [Hi _].
    apply andb_true_iff in Hi as [Ha Hb].
    apply N.leb_le in Ha, Hb. lia.
  - right. apply andb_true_iff in Hi as [_ Hi]. now apply N.eqb_eq in Hi.
Qed.

Lemma all_star_bit (r : bounds) :
  r.(max) < 63 -> exists b, all r = Ok b /\ N.testbit b 63 = true.
Proof.
  intros Hmax. unfold all.
  destruct (getBits_spec r.(min) r.(max) 1) as (bits & -> & _); [lia|lia|].
  eexists. split; [reflexivity|].
  rewrite N.lor_spec, testbit_starBit. apply orb_true_r.
Qed.

(** Claim C2, as the code has it.  For a field of an explicit field list
    (bounds below 63) that getField accepts, the wildcard bit of the mask is
    set if and only if one of its comma-separated sub-expressions has [*] or
    [?] as its first token and no step or a step that reads as 1: so [*] and
    [?] set it, and so do [*/1] and [*,5].  In every schedule parseDescriptor
    returns for a descriptor, each of the six fields is either all legal
    values of the field ([all]), with the wildcard bit set, or pinned to its
    minimum, with the wildcard bit clear; [all] has the wildcard bit and
    [1 << min] does not, for any bounds below 63. *)
Theorem wildcard_bit_of_field `{Time} :
  (forall field r bits,
     r.(max) < 63 ->
     getField field r = Ok bits ->
     (N.testbit bits 63 = true <->
      exists expr, In expr (strings.FieldsFunc field comma) /\
                   wildcardExpr expr = true)) /\
  (forall descriptor loc s,
     parseDescriptor descriptor loc = Ok (Spec s) ->
     pinnedOrAll seconds (Sched_Second s) /\ pinnedOrAll minutes (Sched_Minute s) /\
     pinnedOrAll hours (Sched_Hour s) /\ pinnedOrAll dom (Sched_Dom s) /\
     pinnedOrAll months (Sched_Month s) /\ pinnedOrAll dow (Sched_Dow s)) /\
  (forall r,
     r.(min) <= r.(max) -> r.(max) < 63 ->
     (exists b, all r = Ok b /\ N.testbit b 63 = true) /\
     N.testbit (shl64 1 r.(min)) 63 = false).
Proof.
  split; [|split].
  - intros field r bits Hmax Hf. unfold getField in Hf. fold comma in Hf.
    apply getField_loop_Ok in Hf as (masks & Hall & Hbits).
    rewrite Hbits, N.bits_0. simpl. clear Hbits.
    induction Hall as [|expr m ranges masks Hm Hall IH]; simpl.
    + split; [discriminate|]. intros (expr & [] & _).
    + rewrite (getRange_star_bit expr r m Hmax Hm), orb_true_iff, IH.
      split.
      * intros [Hw|(e & Hin & Hw)].
        -- exists expr. split; [now left|exact Hw].
        -- exists e. split; [now right|exact Hw].
      * intros (e & [<-|Hin] & Hw); [now left|right; eauto].
  - intros descriptor loc s Hp. unfold parseDescriptor in Hp.
    repeat match type of Hp with
           | (if ?c then _ else _) = _ =>
               destruct c;
               [vm_compute in Hp; injection Hp as <-;
                repeat split;
                solve [left; split; vm_compute; reflexivity
                      |right; split; vm_compute; reflexivity]|]
           end.
    destruct (strings.HasPrefix descriptor every); [|discriminate].
    destruct (slice _ _ _); cbn [bind] in Hp; try discriminate.
    destruct (ParseDuration _); discriminate.
  - intros r Hr Hmax. split; [now apply all_star_bit|].
    rewrite testbit_shl64, testbit_one.
    destruct (N.eqb_spec (63 - r.(min)) 0); [lia|]. apply andb_false_r.
Qed.

Lemma getField_within (field : string) (r : bounds) (bits : N) :
  r.(max) < 2 ^ 63 -> getField field r = Ok bits -> within r bits.
Proof.
  intros Hmax Hf. unfold getField in Hf.
  apply getField_loop_Ok in Hf as (masks & Hall & Hbits).
  intros i Hi. rewrite Hbits, N.bits_0 in Hi. simpl in Hi. clear Hbits.
  induction Hall as [|expr m ranges masks Hm Hall IH]; simpl in Hi; [discriminate|].
  apply orb_true_iff in Hi as [Hi|Hi]; [|now apply IH].
  now apply (getRange_within expr r m Hmax Hm).
Qed.

Lemma FieldsFunc_onlyCommas (s : string) :
  onlyCommas s = true -> strings.FieldsFunc s comma = [].
Proof.
  induction s as [|a s IH]; [reflexivity|].
  cbn [onlyCommas strings.FieldsFunc]. intros Hc.
  apply andb_true_iff in Hc as [Ha Hs]. unfold comma at 1. rewrite Ha. now apply IH.
Qed.

Lemma getField_onlyCommas (field : string) (r : bounds) :
  onlyCommas field = true -> getField field r = Ok 0.
Proof.
  intros Hc. unfold getField. fold comma. now rewrite FieldsFunc_onlyCommas.
Qed.

(** ** normalizeFields *)

Lemma has_lor (o f g : ParseOption) :
  (0 <= g)%Z -> has (Z.lor o f) g = has o g || has f g.
Proof.
  intros Hg. unfold has. rewrite Z.land_lor_distr_l.
  assert (Ha : (0 <= Z.land o g)%Z) by (apply Z.land_nonneg; auto).
  assert (Hb : (0 <= Z.land f g)%Z) by (apply Z.land_nonneg; auto).
  pose proof (Z.lor_eq_0_iff (Z.land o g) (Z.land f g)) as Hz.
  pose proof (proj2 (Z.lor_nonneg (Z.land o g) (Z.land f g)) (conj Ha Hb)) as Hn.
  destruct (Z.ltb_spec 0 (Z.lor (Z.land o g) (Z.land f g))),
    (Z.ltb_spec 0 (Z.land o g)), (Z.ltb_spec 0 (Z.land f g)); simpl; try reflexivity; try lia.
Qed.

Lemma distribute_length (cfg : ParseOption -> bool) (ps : list ParseOption) :
  forall dflt tokens, length dflt = length ps ->
    length (distribute cfg ps dflt tokens) = length ps.
Proof.
  induction ps as [|place ps IH]; intros [|d dflt] tokens Hl; try discriminate; [reflexivity|].
  injection Hl as Hl. cbn [distribute].
  destruct (cfg place); [destruct tokens|]; cbn [length]; now rewrite IH.
Qed.

Lemma distribute_ext (f g : ParseOption -> bool) (ps : list ParseOption) :
  (forall place, In place ps -> f place = g place) ->
  forall dflt tokens, distribute f ps dflt tokens = distribute g ps dflt tokens.
Proof.
  induction ps as [|place ps IH]; intros Hfg dflt tokens; [reflexivity|].
  destruct dflt as [|d dflt]; [reflexivity|]. cbn [distribute].
  rewrite (Hfg place) by now left.
  assert (Hrest : forall q, In q ps -> f q = g q) by (intros q Hq; apply Hfg; now right).
  destruct (g place); [destruct tokens|]; now rewrite IH.
Qed.

Lemma countFields_ext (f g : ParseOption -> bool) (ps : list ParseOption) :
  (forall place, In place ps -> f place = g place) ->
  countFields f ps = countFields g ps.
Proof.
  induction ps as [|place ps IH]; intros Hfg; [reflexivity|]. cbn [countFields].
  rewrite (Hfg place) by now left.
  rewrite IH; [reflexivity|]. intros q Hq. apply Hfg. now right.
Qed.

Lemma fold_left_count (o : ParseOption) (ps : list ParseOption) (acc : Z) :
  fold_left (fun max place => if has o place then (max + 1)%Z else max) ps acc =
  (acc + Z.of_nat (countFields (has o) ps))%Z.
Proof.
  revert acc. induction ps as [|place ps IH]; intros acc; cbn [fold_left countFields]; [lia|].
  rewrite IH. destruct (has o place); lia.
Qed.

(** The loop of normalizeFields: when enough tokens are left, it fills the
    rest of expandedFields the way [distribute] does. *)
Lemma normalizeFields_loop_spec (o : ParseOption) (fields : list string) :
  forall ps pre post (n : nat),
    length post = length ps ->
    (countFields (has o) ps <= length (drop n fields))%nat ->
    normalizeFields_loop ps (length pre) o fields (Z.of_nat n) (pre ++ post) =
    Ok (pre ++ distribute (has o) ps post (drop n fields)).
Proof.
  induction ps as [|place ps IH]; intros pre [|d post] n Hlen Hcount; try discriminate.
  - reflexivity.
  - injection Hlen as Hlen. cbn [normalizeFields_loop distribute countFields] in *.
    destruct (has o place).
    + destruct (drop n fields) as [|t rest] eqn:Hdrop; [cbn in Hcount; lia|].
      assert (Hn : fields !! n = Some t).
      { rewrite <- (take_drop n fields) at 1. rewrite Hdrop.
        assert (Hfn : (n < length fields)%nat).
        { destruct (Nat.lt_ge_cases n (length fields)) as [Hlt|Hge]; [exact Hlt|].
          rewrite drop_ge in Hdrop by exact Hge. discriminate. }
        rewrite lookup_app_r; rewrite length_take; [|lia].
        replace (n - n `min` length fields)%nat with O by lia. reflexivity. }
      assert (Hrest : drop (S n) fields = rest).
      { change (S n) with (1 + n)%nat.
        rewrite Nat.add_comm, <- drop_drop, Hdrop. reflexivity. }
      unfold index. destruct (Z.ltb_spec (Z.of_nat n) 0); [lia|].
      rewrite Nat2Z.id, Hn. cbn [bind].
      replace (<[length pre:=t]> (pre ++ d :: post)) with ((pre ++ [t]) ++ post).
      2:{ rewrite insert_app_r_alt by lia. rewrite Nat.sub_diag. cbn.
          now rewrite <- app_assoc. }
      replace (S (length pre)) with (length (pre ++ [t])) by (rewrite length_app; cbn; lia).
      replace (Z.of_nat n + 1)%Z with (Z.of_nat (S n)) by lia.
      rewrite IH; [|exact Hlen|rewrite Hrest; cbn in Hcount; lia].
      rewrite Hrest, <- app_assoc. reflexivity.
    + replace (pre ++ d :: post) with ((pre ++ [d]) ++ post) by now rewrite <- app_assoc.
      replace (S (length pre)) with (length (pre ++ [d])) by (rewrite length_app; cbn; lia).
      rewrite IH; [|exact Hlen|exact Hcount].
      rewrite <- app_assoc. reflexivity.
Qed.

Lemma configured_effective (options place : ParseOption) :
  In place places ->
  has (if has options DowOptional
       then Z.lor (if has options SecondOptional then Z.lor options Second else options) Dow
       else if has options SecondOptional then Z.lor options Second else options) place =
  configured options place.
Proof.
  unfold configured, places. intros Hin.
  assert (Hp : (0 <= place)%Z).
  { repeat destruct Hin as [<-|Hin]; try (cbv; discriminate). destruct Hin. }
  destruct (has options SecondOptional), (has options DowOptional);
    rewrite ?has_lor by exact Hp;
    repeat destruct Hin as [<-|Hin]; try destruct Hin;
    cbn; rewrite ?orb_false_r, ?orb_true_r; reflexivity.
Qed.

Ltac decide_tests :=
  repeat match goal with
         | |- context [(?a <? ?b)%Z] =>
             first [ replace (a <? b)%Z with true by (symmetry; apply Z.ltb_lt; lia)
                   | replace (a <? b)%Z with false by (symmetry; apply Z.ltb_ge; lia) ]
         | |- context [(?a =? ?b)%Z] =>
             first [ replace (a =? b)%Z with true by (symmetry; apply Z.eqb_eq; lia)
                   | replace (a =? b)%Z with false by (symmetry; apply Z.eqb_neq; lia) ]
         end.

Ltac normalize_tail Hlen Hcount :=
  rewrite !fold_left_count, Hcount, Hlen; decide_tests; cbn [orb andb].

(** Claim C6.  With exactly one optional flag and as many tokens as the
    configured minimum (the number of configured fields less one),
    normalizeFields completes the tokens (["*"] appended for an optional day
    of week, ["0"] put in front for an optional second) and distributes
    them: each configured field takes the next token, each other field its
    default.  The result has six tokens. *)
Theorem normalizeFields_optional (fields : list string) (options : ParseOption) :
  xorb (has options SecondOptional) (has options DowOptional) = true ->
  Z.of_nat (length fields) = (Z.of_nat (countFields (configured options) places) - 1)%Z ->
  let tokens := if has options DowOptional then fields ++ ["*"] else "0" :: fields in
  let out := distribute (configured options) places defaults tokens in
  normalizeFields fields options = Ok out /\ length out = 6%nat.
Proof.
  intros Hx Hlen tokens out. split; [|now apply distribute_length].
  pose proof (configured_effective options) as Hcfg.
  unfold normalizeFields. subst out tokens.
  destruct (has options SecondOptional) eqn:E1, (has options DowOptional) eqn:E2;
    try discriminate Hx; clear Hx; cbv beta iota zeta.
  - (* an optional second *)
    rewrite (has_lor options Second DowOptional), E2 by (cbv; discriminate).
    change (has Second DowOptional) with false. cbv beta iota zeta. cbn [orb].
    assert (Hcount : countFields (has (Z.lor options Second)) places =
                     countFields (configured options) places)
      by (apply countFields_ext; exact Hcfg).
    normalize_tail Hlen Hcount.
    rewrite ?has_lor, ?E1, ?E2 by (cbv; discriminate).
    change (has Second DowOptional) with false. change (has Second SecondOptional) with false.
    cbn [orb bind]. change (index defaults 0) with (Ok (A := string) "0"). cbn [bind].
    change (copy (replicate (length places) EmptyString) defaults) with defaults.
    cbn [app].
    pose proof (normalizeFields_loop_spec (Z.lor options Second) ("0" :: fields)
                  places [] defaults 0 eq_refl) as Hloop.
    cbn [length app drop] in Hloop. change (Z.of_nat 0) with 0%Z in Hloop. rewrite Hloop.
    + f_equal. apply distribute_ext. exact Hcfg.
    + rewrite Hcount. lia.
  - (* an optional day of week *)
    assert (Hcount : countFields (has (Z.lor options Dow)) places =
                     countFields (configured options) places)
      by (apply countFields_ext; exact Hcfg).
    normalize_tail Hlen Hcount.
    rewrite ?has_lor, ?E1, ?E2 by (cbv; discriminate).
    change (has Dow DowOptional) with false.
    cbn [orb bind]. change (index defaults 5) with (Ok (A := string) "*"). cbn [bind].
    change (copy (replicate (length places) EmptyString) defaults) with defaults.
    pose proof (normalizeFields_loop_spec (Z.lor options Dow) (fields ++ ["*"])
                  places [] defaults 0 eq_refl) as Hloop.
    cbn [length app drop] in Hloop. change (Z.of_nat 0) with 0%Z in Hloop. rewrite Hloop.
    + f_equal. apply distribute_ext. exact Hcfg.
    + change (drop 0 (fields ++ ["*"])) with (fields ++ ["*"]).
      rewrite Hcount, length_app. cbn [length]. lia.
Qed.

(** ** Parse *)

Lemma Index_ge (s : string) (c : ascii) : (-1 <= strings.Index s c)%Z.
Proof.
  induction s as [|a s IH]; simpl; [lia|].
  destruct (Ascii.eqb a c); [lia|].
  destruct (Z.ltb_spec (strings.Index s c) 0); lia.
Qed.

Lemma Index_absent (s : string) (c : ascii) :
  occurs c s = false -> strings.Index s c = (-1)%Z.
Proof.
  induction s as [|a s IH]; simpl; [reflexivity|].
  intros Ho. apply orb_false_iff in Ho as [Ha Hs].
  rewrite Ha, (IH Hs). reflexivity.
Qed.

Lemma within_all (r : bounds) (b : N) :
  r.(max) + 1 < 2 ^ 64 -> all r = Ok b -> within r b.
Proof.
  intros Hmax Ha. unfold all in Ha.
  destruct (getBits_spec r.(min) r.(max) 1) as (bits & Hb & Hbits); [lia|lia|].
  rewrite Hb in Ha. cbn [bind] in Ha. injection Ha as <-.
  intros i Hi. rewrite N.lor_spec, Hbits, testbit_starBit in Hi.
  apply orb_true_iff in Hi as [Hi|Hi].
  - left. unfold stepped in Hi.
    apply andb_true_iff in Hi as [_ Hi]. apply andb_true_iff in Hi as [Hi _].
    apply andb_true_iff in Hi as [Ha Hb']. apply N.leb_le in Ha, Hb'. lia.
  - right. now apply N.eqb_eq in Hi.
Qed.

Lemma within_shl (r : bounds) :
  r.(min) <= r.(max) -> within r (shl64 1 r.(min)).
Proof.
  intros Hr i Hi. rewrite testbit_shl64, testbit_one in Hi.
  apply andb_true_iff in Hi as [Hi Hz]. apply andb_true_iff in Hi as [_ Hle].
  apply N.leb_le in Hle. apply N.eqb_eq in Hz. left. lia.
Qed.

Lemma Fields_onlyCommas (tok : string) :
  onlyCommas tok = true -> tok <> EmptyString ->
  strings.Fields (tok +:+ " * * * *") = [tok; "*"; "*"; "*"; "*"].
Proof.
  unfold strings.Fields.
  induction tok as [|a tok IH]; [congruence|].
  cbn [onlyCommas]. intros Hc _. apply andb_true_iff in Hc as [Ha Hc].
  apply Ascii.eqb_eq in Ha. subst a.
  destruct tok as [|b tok]; [reflexivity|].
  specialize (IH Hc ltac:(discriminate)).
  cbn [onlyCommas] in Hc. apply andb_true_iff in Hc as [Hb _].
  apply Ascii.eqb_eq in Hb. subst b.
  change (String "," (String "," tok) +:+ " * * * *")
    with (String "," (String "," tok +:+ " * * * *")).
  cbn [strings.FieldsFunc]. rewrite IH.
  change (String "," tok +:+ " * * * *") with (String "," (tok +:+ " * * * *")).
  reflexivity.
Qed.

Section ParseProperties.

Context `{Time}.

Lemma field_inv (err err' : option error) (f : string) (r : bounds) (b : N) :
  field err f r = Ok (b, err') -> err' = None ->
  err = None /\ getField f r = Ok b.
Proof.
  unfold field. destruct err as [e|].
  - intros [= <- <-]. discriminate.
  - destruct (getField f r); intros [= <- <-]; [auto|discriminate].
Qed.

Ltac within_field :=
  first [ eapply within_all; [|eassumption]; cbn; lia
        | apply within_shl; cbn; lia ].

Lemma parseDescriptor_within (descriptor : string) (loc : Location) (s : SpecSchedule) :
  parseDescriptor descriptor loc = Ok (Spec s) -> schedule_within s.
Proof.
  unfold parseDescriptor.
  repeat match goal with
         | |- context [if ?c then _ else _] => destruct c
         end; intros Hp;
    repeat match type of Hp with
           | bind _ _ = Ok _ => apply bind_Ok in Hp as (? & ? & Hp)
           end;
    try discriminate;
    try (injection Hp as <-; unfold schedule_within; cbn [Sched_Second Sched_Minute
           Sched_Hour Sched_Dom Sched_Month Sched_Dow]; repeat split; within_field).
  destruct (ParseDuration _); discriminate.
Qed.

(** Claim C8.  A mask that getField returns without error for bounds
    (min, max) has its set bits at positions min..max or at position 63
    (the bounds fit a Go int, as those of the six fields do); and so has
    every field of a schedule that Parse returns, descriptors included. *)
Theorem masks_within_bounds :
  (forall field r bits,
     r.(max) < 2 ^ 63 -> getField field r = Ok bits -> within r bits) /\
  (forall p spec s, Parse p spec = Ok (Spec s) -> schedule_within s).
Proof.
  split; [exact getField_within|]. intros p spec s.
  unfold Parse. destruct (String.length spec =? 0)%nat; [discriminate|].
  intros Hp. apply bind_Ok in Hp as ([loc spec'] & _ & Hp).
  destruct (strings.HasPrefix spec' "@").
  { destruct (_ =? 0)%Z; [discriminate|]. eapply parseDescriptor_within, Hp. }
  apply bind_Ok in Hp as (fields & _ & Hp).
  apply bind_Ok in Hp as (f0 & _ & Hp). apply bind_Ok in Hp as ([b0 e0] & H0 & Hp).
  apply bind_Ok in Hp as (f1 & _ & Hp). apply bind_Ok in Hp as ([b1 e1] & H1 & Hp).
  apply bind_Ok in Hp as (f2 & _ & Hp). apply bind_Ok in Hp as ([b2 e2] & H2 & Hp).
  apply bind_Ok in Hp as (f3 & _ & Hp). apply bind_Ok in Hp as ([b3 e3] & H3 & Hp).
  apply bind_Ok in Hp as (f4 & _ & Hp). apply bind_Ok in Hp as ([b4 e4] & H4 & Hp).
  apply bind_Ok in Hp as (f5 & _ & Hp). apply bind_Ok in Hp as ([b5 e5] & H5 & Hp).
  destruct e5 as [e|]; [discriminate|]. injection Hp as <-.
  apply field_inv in H5 as [-> H5]; [|reflexivity].
  apply field_inv in H4 as [-> H4]; [|reflexivity].
  apply field_inv in H3 as [-> H3]; [|reflexivity].
  apply field_inv in H2 as [-> H2]; [|reflexivity].
  apply field_inv in H1 as [-> H1]; [|reflexivity].
  apply field_inv in H0 as [_ H0]; [|reflexivity].
  unfold schedule_within. cbn [Sched_Second Sched_Minute Sched_Hour Sched_Dom
    Sched_Month Sched_Dow].
  repeat split; (eapply getField_within; [|eassumption]; cbn; lia).
Qed.

Lemma Parse_explicit (p : Parser) (spec f0 f1 f2 f3 f4 f5 : string)
    (b0 b1 b2 b3 b4 b5 : N) :
  spec <> EmptyString ->
  strings.HasPrefix spec "TZ=" = false ->
  strings.HasPrefix spec "CRON_TZ=" = false ->
  strings.HasPrefix spec "@" = false ->
  normalizeFields (strings.Fields spec) p.(options) = Ok [f0; f1; f2; f3; f4; f5] ->
  getField f0 seconds = Ok b0 -> getField f1 minutes = Ok b1 ->
  getField f2 hours = Ok b2 -> getField f3 dom = Ok b3 ->
  getField f4 months = Ok b4 -> getField f5 dow = Ok b5 ->
  Parse p spec =
    Ok (Spec {| Sched_Second := b0; Sched_Minute := b1; Sched_Hour := b2;
                Sched_Dom := b3; Sched_Month := b4; Sched_Dow := b5;
                Sched_Location := Local |}).
Proof.
  intros Hne Htz Hcron Hat Hnorm H0 H1 H2 H3 H4 H5. unfold Parse.
  destruct spec as [|a spec]; [congruence|].
  cbn [String.length Nat.eqb]. rewrite Htz, Hcron. cbn [orb bind].
  rewrite Hat, Hnorm. cbn [bind].
  change (index [f0; f1; f2; f3; f4; f5] 0) with (Ok (A := string) f0).
  change (index [f0; f1; f2; f3; f4; f5] 1) with (Ok (A := string) f1).
  change (index [f0; f1; f2; f3; f4; f5] 2) with (Ok (A := string) f2).
  change (index [f0; f1; f2; f3; f4; f5] 3) with (Ok (A := string) f3).
  change (index [f0; f1; f2; f3; f4; f5] 4) with (Ok (A := string) f4).
  change (index [f0; f1; f2; f3; f4; f5] 5) with (Ok (A := string) f5).
  unfold field. cbn [bind]. rewrite H0. cbn [bind]. rewrite H1. cbn [bind].
  rewrite H2. cbn [bind]. rewrite H3. cbn [bind]. rewrite H4. cbn [bind].
  rewrite H5. reflexivity.
Qed.

(** Claim C10.  A field token made of commas only compiles to the mask 0
    without error, and Parse accepts a spec with such a token: the standard
    parser returns a schedule whose minute mask permits no value. *)
Theorem comma_only_field :
  (forall field r, onlyCommas field = true -> getField field r = Ok 0) /\
  (forall tok, onlyCommas tok = true -> tok <> EmptyString ->
     exists s, ParseStandard (tok +:+ " * * * *") = Ok (Spec s) /\ Sched_Minute s = 0).
Proof.
  split; [exact getField_onlyCommas|].
  intros tok Hc Hne. unfold ParseStandard.
  pose proof (Fields_onlyCommas tok Hc Hne) as Hfields.
  pose proof (getField_onlyCommas tok minutes Hc) as Hmin.
  eexists. split.
  - apply (Parse_explicit standardParser _ "0" tok "*" "*" "*" "*").
    + destruct tok; [congruence|discriminate].
    + destruct tok as [|a tok]; [congruence|]. cbn [onlyCommas] in Hc.
      apply andb_true_iff in Hc as [Ha _]. apply Ascii.eqb_eq in Ha. now subst a.
    + destruct tok as [|a tok]; [congruence|]. cbn [onlyCommas] in Hc.
      apply andb_true_iff in Hc as [Ha _]. apply Ascii.eqb_eq in Ha. now subst a.
    + destruct tok as [|a tok]; [congruence|]. cbn [onlyCommas] in Hc.
      apply andb_true_iff in Hc as [Ha _]. apply Ascii.eqb_eq in Ha. now subst a.
    + rewrite Hfields. reflexivity.
    + reflexivity.
    + exact Hmin.
    + reflexivity.
    + reflexivity.
    + reflexivity.
    + reflexivity.
  - reflexivity.
Qed.

(** Claim C9.  On a spec that begins with [TZ=] or [CRON_TZ=] and has no
    space, Parse returns neither a schedule nor an error: the index of the
    first space is -1, and slicing the spec up to it panics. *)
Theorem timezone_without_space_panics (p : Parser) (spec : string) :
  strings.HasPrefix spec "TZ=" = true \/ strings.HasPrefix spec "CRON_TZ=" = true ->
  occurs " " spec = false ->
  Parse p spec = Panic SliceOutOfRange.
Proof.
  intros Hprefix Hspace. unfold Parse.
  destruct spec as [|a spec]; [destruct Hprefix; discriminate|].
  cbn [String.length Nat.eqb].
  assert (Hcond : strings.HasPrefix (String a spec) "TZ=" ||
                  strings.HasPrefix (String a spec) "CRON_TZ=" = true).
  { apply orb_true_iff. exact Hprefix. }
  rewrite Hcond, (Index_absent _ _ Hspace).
  pose proof (Index_ge (String a spec) "=") as Hge.
  unfold slice.
  destruct (Z.leb_spec (strings.Index (String a spec) "=" + 1) (-1)); [lia|].
  now rewrite andb_false_r.
Qed.

(** Claim C7.  The standard parser compiles [@weekly] and [0 0 * * 0] to
    the same schedule: second, minute and hour have the bit of their
    minimum, day of month and month their full range with the wildcard bit,
    day of week the bit 0 alone; the location is the local one. *)
Theorem weekly_descriptor :
  ParseStandard "@weekly" = ParseStandard "0 0 * * 0" /\
  ParseStandard "0 0 * * 0" =
    Ok (Spec {| Sched_Second := 2 ^ seconds.(min);
                Sched_Minute := 2 ^ minutes.(min);
                Sched_Hour := 2 ^ hours.(min);
                Sched_Dom := (2 ^ 32 - 2 ^ 1) + 2 ^ 63;
                Sched_Month := (2 ^ 13 - 2 ^ 1) + 2 ^ 63;
                Sched_Dow := 2 ^ 0;
                Sched_Location := Local |}) /\
  all dom = Ok ((2 ^ 32 - 2 ^ 1) + 2 ^ 63) /\
  all months = Ok ((2 ^ 13 - 2 ^ 1) + 2 ^ 63).
Proof. repeat split; vm_compute; reflexivity. Qed.

End ParseProperties.

(** * The properties on concrete inputs *)

Lemma witness_wildcard_step :
  exists bits,
    getRange "*/5" minutes = Ok bits /\
    (forall i, i <> 63 -> N.testbit bits i = stepped minutes.(min) minutes.(max) 5 i) /\
    N.testbit bits 63 = (5 =? 1).
Proof.
  apply (wildcard_step_bits minutes "*" "5" 5);
    [now left | reflexivity | lia | cbn; lia | cbn; lia].
Defined.

(** [*/5] on the minutes: accepted, with the wildcard bit clear. *)
Lemma counterexample_wildcard_step :
  mustParseInt "5" = Ok 5 /\
  exists bits, getRange "*/5" minutes = Ok bits /\ N.testbit bits 63 = false.
Proof.
  split; [reflexivity|].
  exists 37191016277640225. split; vm_compute; reflexivity.
Qed.

Lemma witness_wildcard_bit :
  (N.testbit 10376293541461622783 63 = true <->
   exists expr, In expr (strings.FieldsFunc "*,5" comma) /\ wildcardExpr expr = true) /\
  (pinnedOrAll seconds 1 /\ pinnedOrAll minutes 1 /\ pinnedOrAll hours 1 /\
   pinnedOrAll dom 2 /\ pinnedOrAll months 9223372036854783998 /\
   pinnedOrAll dow 9223372036854775935) /\
  (exists b, all dom = Ok b /\ N.testbit b 63 = true) /\
  N.testbit (shl64 1 dom.(min)) 63 = false.
Proof.
  split; [|split].
  - apply (proj1 (@wildcard_bit_of_field utcOnly) "*,5" minutes);
      [cbn; lia | vm_compute; reflexivity].
  - apply (proj1 (proj2 (@wildcard_bit_of_field utcOnly)) "@monthly" "UTC"
             (@Build_SpecSchedule utcOnly 1 1 1 2 9223372036854783998
                9223372036854775935 "UTC")).
    vm_compute. reflexivity.
  - apply (proj2 (proj2 (@wildcard_bit_of_field utcOnly)) dom); cbn; lia.
Defined.

(** [*/1] and [*,5] are neither [*] nor [?], and set the wildcard bit. *)
Lemma counterexample_wildcard_bit :
  (exists bits, getField "*/1" minutes = Ok bits /\ N.testbit bits 63 = true) /\
  (exists bits, getField "*,5" minutes = Ok bits /\ N.testbit bits 63 = true).
Proof.
  split; exists 10376293541461622783; split; vm_compute; reflexivity.
Qed.

Lemma witness_value_step :
  (exists bits,
     getRange ("5" +:+ String "/" "15") minutes = Ok bits /\
     (forall i, N.testbit bits i = stepped 5 minutes.(max) 15 i) /\
     N.testbit bits 63 = false) /\
  getRange "5/15" minutes = Ok (2 ^ 5 + 2 ^ 20 + 2 ^ 35 + 2 ^ 50).
Proof.
  apply (value_step_bits minutes "5" "15" 5 15); try reflexivity; cbn; lia.
Defined.

Lemma witness_too_many_hyphens :
  (exists e, getRange "1-2-3" minutes = Err e) /\
  (forall n, parseIntOrName (firstToken (rangePart "1-2-3")) minutes.(names) = Ok n ->
             getRange "1-2-3" minutes = Err (ErrTooManyHyphens "1-2-3")) /\
  (forall e, parseIntOrName (firstToken (rangePart "1-2-3")) minutes.(names) = Err e ->
             getRange "1-2-3" minutes = Err e).
Proof.
  apply (too_many_hyphens "1-2-3" minutes); [cbn; lia | reflexivity].
Defined.

(** Two hyphens in the range part: [x-1-2] fails on its first token, not on
    its hyphens, and [*-1-2] is accepted. *)
Lemma counterexample_too_many_hyphens :
  countByte "-" (rangePart "x-1-2") = 2%nat /\
  getRange "x-1-2" minutes = Err (ErrParseInt "x" strconv.ErrSyntax) /\
  countByte "-" (rangePart "*-1-2") = 2%nat /\
  exists bits, getRange "*-1-2" minutes = Ok bits.
Proof.
  repeat split; try reflexivity.
  exists 10376293541461622783. vm_compute. reflexivity.
Qed.

Lemma witness_range_checks :
  (60 < minutes.(min) ->
     getRange "60" minutes = Err (ErrBelowMinimum 60 minutes.(min) "60")) /\
  (minutes.(min) <= 60 -> minutes.(max) < 60 ->
     getRange "60" minutes = Err (ErrAboveMaximum 60 minutes.(max) "60")) /\
  (minutes.(min) <= 60 -> 60 <= minutes.(max) -> 60 < 60 ->
     getRange "60" minutes = Err (ErrBeyondEnd 60 60 "60")) /\
  (minutes.(min) <= 60 -> 60 <= minutes.(max) -> 60 <= 60 -> 1 = 0 ->
     getRange "60" minutes = Err (ErrStepNotPositive "60")) /\
  ((exists e, getRange "60" minutes = Err e) <->
     60 < minutes.(min) \/ minutes.(max) < 60 \/ 60 < 60 \/ 1 = 0).
Proof. apply (range_checks "60" minutes 60 60 1 0). reflexivity. Defined.

(** A step of 0: the error carries the sub-expression and nothing else; it
    is the same error whatever the bounds of the field are. *)
Lemma counterexample_range_checks :
  getRange_resolve "1/0" minutes = Ok (1, 59, 0, 0) /\
  getRange "1/0" minutes = Err (ErrStepNotPositive "1/0") /\
  getRange_resolve "1/0" hours = Ok (1, 23, 0, 0) /\
  getRange "1/0" hours = Err (ErrStepNotPositive "1/0").
Proof. repeat split; vm_compute; reflexivity. Qed.

Lemma witness_normalizeFields :
  normalizeFields ["1"; "2"; "3"; "4"; "5"] 126%Z = Ok ["0"; "1"; "2"; "3"; "4"; "5"] /\
  length ["0"; "1"; "2"; "3"; "4"; "5"] = 6%nat.
Proof.
  exact (normalizeFields_optional ["1"; "2"; "3"; "4"; "5"] 126%Z eq_refl eq_refl).
Defined.

Lemma witness_masks_within :
  within minutes (2 ^ 5 + 2 ^ 20 + 2 ^ 35 + 2 ^ 50) /\
  (forall s, @ParseStandard utcOnly "@weekly" = Ok (Spec s) -> schedule_within s).
Proof.
  split.
  - apply (proj1 (@masks_within_bounds utcOnly) "5/15" minutes);
      [cbn; lia | vm_compute; reflexivity].
  - intros s Hs. apply (proj2 (@masks_within_bounds utcOnly) standardParser "@weekly" s Hs).
Defined.

Lemma witness_timezone_without_space :
  @Parse utcOnly standardParser "TZ=UTC" = Panic SliceOutOfRange.
Proof.
  apply (@timezone_without_space_panics utcOnly standardParser "TZ=UTC");
    [now left | reflexivity].
Defined.

Lemma witness_comma_only :
  getField ",," minutes = Ok 0 /\
  exists s, @ParseStandard utcOnly (",," +:+ " * * * *") = Ok (Spec s) /\ Sched_Minute s = 0.
Proof.
  split.
  - apply (proj1 (@comma_only_field utcOnly)). reflexivity.
  - apply (proj2 (@comma_only_field utcOnly)); [reflexivity | discriminate].
Defined.

(** * Further properties of the code *)

(** ** getBits and all (parser.go, 366-393) *)

Lemma testbit_lt_pow2 (b : N) :
  (forall i, 64 <= i -> N.testbit b i = false) -> b < 2 ^ 64.
Proof.
  intros Hhigh. destruct (N.eq_dec b 0) as [->|Hb]; [reflexivity|].
  apply N.log2_lt_pow2; [lia|].
  destruct (N.lt_ge_cases (N.log2 b) 64) as [Hlt|Hge]; [exact Hlt|].
  pose proof (N.bit_log2 b Hb) as Hbit. rewrite (Hhigh _ Hge) in Hbit. discriminate.
Qed.

(** Extra X1: for a step of at least 1 and a counter that does not wrap
    around (hi + step below 2^64), getBits lo hi step returns a mask and no
    error; its set bits are exactly the values lo, lo+step, lo+2*step, ...
    up to hi that are below 64; the mask fits 64 bits, and it is 0 when
    hi < lo. *)
Theorem getBits_mask (lo hi step : N) :
  1 <= step -> hi + step < 2 ^ 64 ->
  exists bits,
    getBits lo hi step = Ok bits /\
    (forall i, N.testbit bits i = (i <? 64) && stepped lo hi step i) /\
    bits < 2 ^ 64 /\
    (hi < lo -> bits = 0).
Proof.
  intros Hs Hw. destruct (getBits_spec lo hi step Hs Hw) as (bits & Hb & Hbits).
  exists bits. split; [exact Hb|]. split; [exact Hbits|]. split.
  - apply testbit_lt_pow2. intros i Hi. rewrite Hbits.
    destruct (N.ltb_spec i 64); [lia|reflexivity].
  - intros Hempty. apply N.bits_inj. intros i.
    rewrite Hbits, N.bits_0, stepped_empty by exact Hempty. apply andb_false_r.
Qed.

(** Extra X2: the shortcut of getBits for step 1, the expression
    [^(MaxUint64 << (max+1)) & (MaxUint64 << min)], gives the mask the loop
    of the general case gives when it is run with step 1 (for max + 1 below
    2^64). *)
Theorem getBits_shortcut (lo hi : N) :
  hi + 1 < 2 ^ 64 ->
  exists bits,
    getBits lo hi 1 = Ok bits /\
    getBits_loop (N.to_nat (hi - lo) + 2) lo hi 1 0 = Some bits.
Proof.
  intros Hw.
  destruct (getBits_spec lo hi 1) as (bits & Hb & Hbits); [lia|exact Hw|].
  exists bits. split; [exact Hb|].
  destruct (N.le_gt_cases lo (hi + 1)) as [Hlo|Hlo].
  - destruct (getBits_loop_spec hi 1 ltac:(lia) Hw (N.to_nat (hi - lo) + 2) lo 0 Hlo)
      as (b & Hloop & Hb'); [lia|].
    rewrite Hloop. f_equal. apply N.bits_inj. intros i.
    rewrite Hb', Hbits, N.bits_0. reflexivity.
  - replace (N.to_nat (hi - lo) + 2)%nat with (S (S O)) by lia.
    cbn [getBits_loop]. destruct (N.leb_spec lo hi); [lia|].
    f_equal. apply N.bits_inj. intros i.
    rewrite Hbits, N.bits_0, stepped_empty by lia. symmetry. apply andb_false_r.
Qed.

(** Extra X3: with step 0 and min <= max the loop of getBits never ends (its
    counter stays at min): no number of iterations gives a result.  getRange
    rejects a step of 0 before it calls getBits. *)
Theorem getBits_step_zero (lo hi : N) :
  lo <= hi -> hi < 2 ^ 64 ->
  (forall fuel bits, getBits_loop fuel lo hi 0 bits = None) /\
  getBits lo hi 0 = NoReturn.
Proof.
  intros Hle Hhi.
  assert (Hloop : forall fuel bits, getBits_loop fuel lo hi 0 bits = None).
  { induction fuel as [|fuel IH]; intros bits; [reflexivity|].
    cbn [getBits_loop]. destruct (N.leb_spec lo hi); [|lia].
    replace (uadd lo 0) with lo; [apply IH|].
    unfold uadd. rewrite N.add_0_r, N.mod_small; [reflexivity|lia]. }
  split; [exact Hloop|]. unfold getBits.
  change (0 =? 1) with false. cbv iota. now rewrite Hloop.
Qed.

(** Extra X4: all(r) returns the bits min..max (those below 64) together
    with the wildcard bit 63, and the fields ["*"] and ["?"] compile to
    exactly that mask when min <= max; for bounds with max < min the field
    ["*"] is refused with the error "beginning of range (min) beyond end of
    range (max)". *)
Theorem wildcard_is_all (r : bounds) :
  r.(max) + 1 < 2 ^ 64 ->
  exists b,
    all r = Ok b /\
    (forall i, N.testbit b i =
       ((i <? 64) && (r.(min) <=? i) && (i <=? r.(max))) || (i =? 63)) /\
    (r.(min) <= r.(max) -> getField "*" r = Ok b /\ getField "?" r = Ok b) /\
    (r.(max) < r.(min) ->
       getField "*" r = Err (ErrBeyondEnd r.(min) r.(max) "*")).
Proof.
  intros Hmax. unfold all.
  destruct (getBits_spec r.(min) r.(max) 1) as (bits & Hb & Hbits); [lia|exact Hmax|].
  rewrite Hb. cbn [bind]. eexists. split; [reflexivity|]. split; [|split].
  - intros i. rewrite N.lor_spec, Hbits, testbit_starBit. unfold stepped.
    rewrite N.mod_1_r. cbn [N.eqb]. now rewrite andb_true_r, andb_assoc.
  - intros Hr.
    assert (Hstar : forall expr, getRange_resolve expr r = Ok (r.(min), r.(max), 1, starBit) ->
                                 getRange expr r = Ok (N.lor bits starBit)).
    { intros expr Hres. unfold getRange. rewrite Hres. cbn [bind]. unfold getRange_check.
      rewrite !N.ltb_irrefl.
      destruct (N.ltb_spec r.(max) r.(min)); [lia|].
      change (1 =? 0) with false. cbv iota. rewrite Hb. reflexivity. }
    split.
    + change (getField "*" r) with (let* bit := getRange "*" r in Ok (N.lor 0 bit)).
      rewrite (Hstar "*" eq_refl). reflexivity.
    + change (getField "?" r) with (let* bit := getRange "?" r in Ok (N.lor 0 bit)).
      rewrite (Hstar "?" eq_refl). reflexivity.
  - intros Hr.
    change (getField "*" r) with (let* bit := getRange "*" r in Ok (N.lor 0 bit)).
    change (getRange "*" r) with (getRange_check "*" r r.(min) r.(max) 1 starBit).
    unfold getRange_check. rewrite !N.ltb_irrefl.
    destruct (N.ltb_spec r.(max) r.(min)); [reflexivity|lia].
Qed.

(** ** getRange (parser.go, 259-339) *)

(** Extra X5: a sub-expression with more than one [/] never compiles: getRange
    returns an error for it, and the error is "too many slashes" when the
    first token of the range part is [*] or [?]. *)
Theorem too_many_slashes (expr : string) (r : bounds) :
  (1 < countByte "/" expr)%nat ->
  (exists e, getRange expr r = Err e) /\
  (isWildcard (firstToken (rangePart expr)) = true ->
   getRange expr r = Err (ErrTooManySlashes expr)).
Proof.
  intros Hcount. pose proof (Split_length expr "/") as Hlen.
  unfold getRange, getRange_resolve, rangePart, firstToken.
  destruct (strings.Split expr "/") as [|r0 [|r1 [|r2 rs]]]; cbn [length] in Hlen; try lia.
  rewrite index_0. cbn [bind hd].
  destruct (Split_cons r0 "-") as (l0 & ls & ->).
  rewrite index_0. cbn [bind hd length]. fold (isWildcard l0).
  destruct (isWildcard l0).
  - cbn [bind]. split; [eauto|reflexivity].
  - split; [|discriminate].
    destruct (parseIntOrName_total l0 r.(names)) as [[n ->]|[e ->]]; cbn [bind]; [|eauto].
    destruct ls as [|l1 [|l2 ls]]; cbn [bind]; [eauto| |eauto].
    rewrite index_1. cbn [bind].
    destruct (parseIntOrName_total l1 r.(names)) as [[m ->]|[e ->]]; cbn [bind]; eauto.
Qed.

Lemma Split_two (a b : string) (c : ascii) :
  occurs c a = false -> occurs c b = false ->
  strings.Split (a +:+ String c b) c = [a; b].
Proof. intros Ha Hb. now rewrite Split_app, (Split_absent b). Qed.

Lemma append_assoc (a b c : string) : (a +:+ b) +:+ c = a +:+ (b +:+ c).
Proof.
  induction a as [|x a IH]; [reflexivity|].
  change ((String x a +:+ b) +:+ c) with (String x ((a +:+ b) +:+ c)).
  change (String x a +:+ (b +:+ c)) with (String x (a +:+ (b +:+ c))).
  now rewrite IH.
Qed.

Lemma occurs_app (c : ascii) (a b : string) :
  occurs c (a +:+ b) = occurs c a || occurs c b.
Proof.
  induction a as [|x a IH]; [reflexivity|].
  change (occurs c (String x a +:+ b)) with (Ascii.eqb x c || occurs c (a +:+ b)).
  rewrite IH. apply orb_assoc.
Qed.

Lemma stepped_below_64 (lo hi step i : N) :
  hi < 64 -> (i <? 64) && stepped lo hi step i = stepped lo hi step i.
Proof.
  intros Hhi. destruct (N.ltb_spec i 64); [reflexivity|].
  unfold stepped. destruct (N.leb_spec i hi); [lia|]. now rewrite andb_false_r.
Qed.

(** Extra X6: for two tokens that resolve to a and b with
    min <= a <= b <= max, the sub-expression [a-b] compiles to exactly the
    bits a..b, and [a-b/s], for a step that reads as s >= 1, to exactly the
    bits a, a+s, a+2s, ... up to b; the wildcard bit is clear in both. *)
Theorem getRange_low_high (r : bounds) (ta tb ts : string) (a b s : N) :
  occurs "/" ta = false -> occurs "-" ta = false ->
  occurs "/" tb = false -> occurs "-" tb = false ->
  isWildcard ta = false ->
  parseIntOrName ta r.(names) = Ok a -> parseIntOrName tb r.(names) = Ok b ->
  mustParseInt ts = Ok s ->
  r.(min) <= a -> a <= b -> b <= r.(max) -> 1 <= s -> r.(max) < 63 ->
  (exists bits,
     getRange (ta +:+ String "-" tb) r = Ok bits /\
     forall i, N.testbit bits i = (a <=? i) && (i <=? b)) /\
  (exists bits,
     getRange (ta +:+ String "-" (tb +:+ String "/" ts)) r = Ok bits /\
     forall i, N.testbit bits i = stepped a b s i).
Proof.
  intros Hsa Hha Hsb Hhb Hwild Ha Hb Hs Hlo Hab Hhi Hstep Hmax.
  pose proof (mustParseInt_slash ts s Hs) as Hss.
  pose proof (mustParseInt_Ok ts s Hs) as [_ Hlt].
  assert (Hrange : strings.Split (ta +:+ String "-" tb) "-" = [ta; tb])
    by now apply Split_two.
  assert (Hnoslash : occurs "/" (ta +:+ String "-" tb) = false).
  { rewrite occurs_app. cbn [occurs]. rewrite Hsa, Hsb. reflexivity. }
  split.
  - assert (Hres : getRange_resolve (ta +:+ String "-" tb) r = Ok (a, b, 1, 0)).
    { unfold getRange_resolve. rewrite (Split_absent _ "/" Hnoslash).
      rewrite index_0. cbn [bind]. rewrite Hrange, index_0. cbn [bind length].
      fold (isWildcard ta). rewrite Hwild, Ha. cbn [bind].
      rewrite index_1. cbn [bind]. rewrite Hb. reflexivity. }
    unfold getRange. rewrite Hres. cbn [bind].
    destruct (getRange_check_Ok (ta +:+ String "-" tb) r a b 1 0)
      as (bits & -> & Hbits); try lia.
    eexists. split; [reflexivity|]. intros i.
    rewrite N.lor_0_r, Hbits, stepped_below_64 by lia.
    unfold stepped. rewrite N.mod_1_r. apply andb_true_r.
  - assert (Hres : getRange_resolve (ta +:+ String "-" (tb +:+ String "/" ts)) r =
                   Ok (a, b, s, 0)).
    { unfold getRange_resolve.
      change (String "-" (tb +:+ String "/" ts)) with (String "-" tb +:+ String "/" ts).
      rewrite <- append_assoc.
      rewrite (Split_two _ ts "/" Hnoslash Hss).
      rewrite index_0, index_1. cbn [bind]. rewrite Hrange, index_0. cbn [bind length].
      fold (isWildcard ta). rewrite Hwild, Ha. cbn [bind].
      rewrite index_1. cbn [bind]. rewrite Hb. cbn [bind]. rewrite Hs. cbn.
      now destruct (1 <? s). }
    unfold getRange. rewrite Hres. cbn [bind].
    destruct (getRange_check_Ok (ta +:+ String "-" (tb +:+ String "/" ts)) r a b s 0)
      as (bits & -> & Hbits); try lia.
    eexists. split; [reflexivity|]. intros i.
    now rewrite N.lor_0_r, Hbits, stepped_below_64 by lia.
Qed.

(** Extra X7: a single token that resolves to n compiles to the mask with
    the one bit n when min <= n <= max; below the minimum getRange returns
    the error "beginning of range below minimum", above the maximum the
    error "end of range above maximum", each with n, the bound and the
    token. *)
Theorem getRange_single_value (r : bounds) (tN : string) (n : N) :
  occurs "/" tN = false -> occurs "-" tN = false -> isWildcard tN = false ->
  parseIntOrName tN r.(names) = Ok n ->
  r.(max) < 64 ->
  (r.(min) <= n -> n <= r.(max) -> getRange tN r = Ok (2 ^ n)) /\
  (n < r.(min) -> getRange tN r = Err (ErrBelowMinimum n r.(min) tN)) /\
  (r.(max) < n -> r.(min) <= n -> getRange tN r = Err (ErrAboveMaximum n r.(max) tN)).
Proof.
  intros Hslash Hhyphen Hwild Hn Hmax.
  assert (Hres : getRange_resolve tN r = Ok (n, n, 1, 0)).
  { unfold getRange_resolve. rewrite (Split_absent tN "/" Hslash), index_0. cbn [bind].
    rewrite (Split_absent tN "-" Hhyphen), index_0. cbn [bind length].
    fold (isWildcard tN). rewrite Hwild, Hn. reflexivity. }
  unfold getRange. rewrite Hres. cbn [bind]. split; [|split].
  - intros Hlo Hhi.
    destruct (getRange_check_Ok tN r n n 1 0) as (bits & -> & Hbits); try lia.
    f_equal. rewrite N.lor_0_r. apply N.bits_inj. intros i.
    rewrite Hbits, stepped_below_64, N.pow2_bits_eqb by lia.
    unfold stepped. rewrite N.mod_1_r, andb_true_r.
    destruct (N.leb_spec n i), (N.leb_spec i n), (N.eqb_spec n i); try reflexivity; lia.
  - intros Hlo. unfold getRange_check.
    destruct (N.ltb_spec n r.(min)); [reflexivity|lia].
  - intros Hhi Hlo. unfold getRange_check.
    destruct (N.ltb_spec n r.(min)); [lia|].
    destruct (N.ltb_spec r.(max) n); [reflexivity|lia].
Qed.

(** ** getField (parser.go, 241-252) *)

Lemma getRange_nonzero (expr : string) (r : bounds) (b : N) :
  r.(max) < 64 -> getRange expr r = Ok b -> b <> 0.
Proof.
  intros Hmax Hg.
  apply getRange_Ok_inv in Hg
    as (start & end_ & step & extra & bits & Hres & H1 & H2 & H3 & H4 & Hbits & ->).
  apply resolve_facts in Hres as [Hstep _].
  destruct (getBits_spec start end_ step H4) as (bits' & Hb' & Hspec); [lia|].
  rewrite Hbits in Hb'. injection Hb' as <-.
  intros Hzero.
  assert (Hbit : N.testbit (N.lor bits extra) start = true).
  { rewrite N.lor_spec, Hspec. unfold stepped.
    rewrite N.leb_refl, N.sub_diag, N.Div0.mod_0_l.
    destruct (N.ltb_spec start 64); [|lia].
    destruct (N.leb_spec start end_); [reflexivity|lia]. }
  rewrite Hzero, N.bits_0 in Hbit. discriminate.
Qed.

Lemma FieldsFunc_unfold (f : ascii -> bool) (x : ascii) (s : string) :
  strings.FieldsFunc (String x s) f =
  if f x then strings.FieldsFunc s f
  else match s with
       | EmptyString => [String x EmptyString]
       | String y _ =>
           if f y then String x EmptyString :: strings.FieldsFunc s f
           else match strings.FieldsFunc s f with
                | piece :: rest => String x piece :: rest
                | [] => [String x EmptyString]
                end
       end.
Proof. reflexivity. Qed.

Lemma FieldsFunc_cons (f : ascii -> bool) (x : ascii) (s : string) :
  f x = false ->
  exists piece rest, strings.FieldsFunc (String x s) f = String x piece :: rest.
Proof.
  intros Hx. rewrite FieldsFunc_unfold, Hx.
  destruct s as [|y s]; [eauto|].
  destruct (f y); [eauto|].
  destruct (strings.FieldsFunc (String y s) f); eauto.
Qed.

Lemma FieldsFunc_nil_onlyCommas (s : string) :
  strings.FieldsFunc s comma = [] -> onlyCommas s = true.
Proof.
  induction s as [|a s IH]; [reflexivity|]. intros Hf.
  destruct (comma a) eqn:Ha.
  - rewrite FieldsFunc_unfold, Ha in Hf. cbn [onlyCommas].
    unfold comma in Ha. rewrite Ha. now apply IH.
  - destruct (FieldsFunc_cons comma a s Ha) as (piece & rest & Hc).
    rewrite Hc in Hf. discriminate.
Qed.

(** Extra X8: for bounds with max below 64, a field that getField accepts
    compiles to the mask 0 exactly when it consists of commas only (the empty
    field included): every sub-expression that is accepted sets a bit. *)
Theorem empty_mask_only_commas (field : string) (r : bounds) (bits : N) :
  r.(max) < 64 ->
  getField field r = Ok bits ->
  (bits = 0 <-> onlyCommas field = true).
Proof.
  intros Hmax Hf. split.
  - intros ->. apply FieldsFunc_nil_onlyCommas.
    unfold getField in Hf. fold comma in Hf.
    destruct (strings.FieldsFunc field comma) as [|expr ranges]; [reflexivity|].
    exfalso. cbn [getField_loop] in Hf. apply bind_Ok in Hf as (m & Hm & Hrest).
    apply getField_loop_Ok in Hrest as (masks & _ & Hbits).
    apply (getRange_nonzero expr r m Hmax Hm).
    apply N.bits_inj. intros i. specialize (Hbits i).
    rewrite N.bits_0 in *. rewrite N.lor_0_l in Hbits.
    symmetry in Hbits. apply orb_false_iff in Hbits as [Hi _]. exact Hi.
  - intros Hc. rewrite (getField_onlyCommas field r Hc) in Hf. now injection Hf.
Qed.

Lemma FieldsFunc_app (f : ascii -> bool) (a b : string) (c : ascii) :
  f c = true ->
  strings.FieldsFunc (a +:+ String c b) f =
  strings.FieldsFunc a f ++ strings.FieldsFunc b f.
Proof.
  intros Hc. induction a as [|x a IH].
  - change (EmptyString +:+ String c b) with (String c b).
    now rewrite FieldsFunc_unfold, Hc.
  - change (String x a +:+ String c b) with (String x (a +:+ String c b)).
    rewrite (FieldsFunc_unfold f x (a +:+ String c b)), (FieldsFunc_unfold f x a).
    destruct (f x) eqn:Hx; [exact IH|].
    destruct a as [|y a].
    + change (EmptyString +:+ String c b) with (String c b).
      cbv beta iota. rewrite Hc, FieldsFunc_unfold, Hc. reflexivity.
    + change (String y a +:+ String c b) with (String y (a +:+ String c b)) in *.
      cbv beta iota. rewrite IH. destruct (f y) eqn:Hy; [reflexivity|].
      destruct (FieldsFunc_cons f y a Hy) as (piece & rest & ->). reflexivity.
Qed.

Lemma getField_loop_app (l1 l2 : list string) (r : bounds) (acc : N) :
  getField_loop (l1 ++ l2) r acc =
  let* bits := getField_loop l1 r acc in getField_loop l2 r bits.
Proof.
  revert acc. induction l1 as [|expr l1 IH]; intros acc; [reflexivity|].
  cbn [app getField_loop]. destruct (getRange expr r); cbn [bind]; auto.
Qed.

Lemma getField_loop_acc (l : list string) (r : bounds) (acc : N) :
  getField_loop l r acc =
  let* bits := getField_loop l r 0 in Ok (N.lor acc bits).
Proof.
  revert acc. induction l as [|expr l IH]; intros acc.
  - cbn [getField_loop bind]. now rewrite N.lor_0_r.
  - cbn [getField_loop]. destruct (getRange expr r) as [m| | |]; cbn [bind]; auto.
    rewrite (IH (N.lor acc m)), (IH (N.lor 0 m)).
    destruct (getField_loop l r 0); cbn [bind]; auto.
    now rewrite N.lor_0_l, N.lor_assoc.
Qed.

(** A list of two parts is compiled part by part, from the left. *)
Lemma getField_comma_eq (a b : string) (r : bounds) :
  getField (a +:+ String "," b) r =
  let* x := getField a r in
  let* y := getField b r in
  Ok (N.lor x y).
Proof.
  unfold getField. rewrite (FieldsFunc_app _ a b "," eq_refl), getField_loop_app.
  destruct (getField_loop (strings.FieldsFunc a _) r 0) as [x| | |]; cbn [bind]; auto.
  apply getField_loop_acc.
Qed.

(** Extra X9: the field [a,b] compiles to the union (bitwise or) of the masks
    of [a] and of [b], whatever commas a and b contain themselves, and [b,a]
    to the same mask; an error of [a] is the error of [a,b], and so is an
    error of [b] when [a] is accepted. *)
Theorem getField_comma (a b : string) (r : bounds) :
  (forall x y, getField a r = Ok x -> getField b r = Ok y ->
     getField (a +:+ String "," b) r = Ok (N.lor x y) /\
     getField (b +:+ String "," a) r = Ok (N.lor x y)) /\
  (forall e, getField a r = Err e -> getField (a +:+ String "," b) r = Err e) /\
  (forall x e, getField a r = Ok x -> getField b r = Err e ->
     getField (a +:+ String "," b) r = Err e).
Proof.
  split; [|split].
  - intros x y Ha Hb. rewrite !getField_comma_eq, Ha, Hb. cbn [bind].
    split; [reflexivity|]. now rewrite N.lor_comm.
  - intros e Ha. now rewrite getField_comma_eq, Ha.
  - intros x e Ha Hb. now rewrite getField_comma_eq, Ha, Hb.
Qed.

(** ** mustParseInt (parser.go, 352-362) *)

Lemma digits_nonneg (s : string) :
  forall acc n, (0 <= acc)%Z -> strconv.digits acc s = inl n -> (0 <= n)%Z.
Proof.
  induction s as [|c s IH]; intros acc n Hacc Hd.
  - injection Hd as <-. exact Hacc.
  - cbn [strconv.digits] in Hd. unfold strconv.digit in Hd.
    destruct ((48 <=? Z.of_N (N_of_ascii c)) && (Z.of_N (N_of_ascii c) <=? 57))%Z eqn:Hc;
      [|discriminate].
    apply andb_true_iff in Hc as [Hlo _]. apply Z.leb_le in Hlo.
    destruct (2 ^ 64 <=? _)%Z; [discriminate|].
    apply IH in Hd; [exact Hd|lia].
Qed.

Lemma Atoi_sign (s : string) (v : Z) :
  strconv.Atoi s = inl v ->
  s <> EmptyString /\
  ((v < 0)%Z -> strings.HasPrefix s "-" = true) /\
  (strings.HasPrefix s "-" = true -> (v <= 0)%Z).
Proof.
  unfold strconv.Atoi. destruct s as [|a s]; [discriminate|]. cbv zeta.
  destruct (Ascii.eqb_spec a "-") as [->|Hne]; cbn [orb].
  - destruct s as [|b s]; [discriminate|].
    destruct (strconv.digits 0 (String b s)) as [n|err] eqn:Hd; [|discriminate].
    apply digits_nonneg in Hd; [|lia].
    destruct (_ && _)%bool; [|discriminate]. intros [= <-].
    split; [discriminate|]. split; [reflexivity|lia].
  - destruct (if Ascii.eqb a "+" then s else String a s) as [|b body]; [discriminate|].
    destruct (strconv.digits 0 (String b body)) as [n|err] eqn:Hd; [|discriminate].
    apply digits_nonneg in Hd; [|lia].
    destruct (_ && _)%bool; [|discriminate]. intros [= <-].
    split; [discriminate|]. split; [lia|].
    unfold strings.HasPrefix. cbn [String.prefix].
    destruct (ascii_dec "-" a); [congruence|discriminate].
Qed.

(** Extra X10: a number mustParseInt returns is below 2^63 and comes from a
    text that is not empty; from a text with a minus sign in front it
    returns 0 only (["-0"] reads as 0).  An error of mustParseInt is the
    error of strconv.Atoi, or "negative number" with a value v < 0 for a
    text with a minus sign in front. *)
Theorem mustParseInt_results (expr : string) :
  (forall n, mustParseInt expr = Ok n ->
     n < 2 ^ 63 /\ expr <> EmptyString /\
     (strings.HasPrefix expr "-" = true -> n = 0)) /\
  (forall e, mustParseInt expr = Err e ->
     (exists err, strconv.Atoi expr = inr err /\ e = ErrParseInt expr err) \/
     (exists v, strconv.Atoi expr = inl v /\ (- 2 ^ 63 <= v < 0)%Z /\
                strings.HasPrefix expr "-" = true /\ e = ErrNegative v expr)).
Proof.
  unfold mustParseInt. destruct (strconv.Atoi expr) as [v|err] eqn:Ha.
  - pose proof (Atoi_range expr v Ha) as Hr.
    destruct (Atoi_sign expr v Ha) as (Hne & Hneg & Hminus).
    destruct (Z.ltb_spec v 0) as [Hv|Hv].
    + split; [discriminate|]. intros e [= <-]. right. exists v.
      split; [reflexivity|]. split; [lia|]. split; [now apply Hneg|reflexivity].
    + split; [|discriminate]. intros n [= <-].
      split; [lia|]. split; [exact Hne|]. intros Hm. specialize (Hminus Hm). lia.
  - split; [discriminate|]. intros e [= <-]. left. eauto.
Qed.

(** ** normalizeFields and NewParser (parser.go, 71-83 and 163-218) *)

Lemma loop_from_start (o : ParseOption) (tokens : list string) :
  (countFields (has o) places <= length tokens)%nat ->
  normalizeFields_loop places 0 o tokens 0 defaults =
  Ok (distribute (has o) places defaults tokens).
Proof.
  intros Hcount.
  exact (normalizeFields_loop_spec o tokens places [] defaults 0 eq_refl Hcount).
Qed.

(** normalizeFields in one piece: the error of two optional flags, the
    check of the count, the distribution of the completed tokens. *)
Lemma normalizeFields_normal_form (fields : list string) (options : ParseOption) :
  normalizeFields fields options =
  if (1 <? optionalFlags options)%Z then Err ErrMultipleOptionals
  else
    let max := maxFields options in
    let min := (max - optionalFlags options)%Z in
    let count := Z.of_nat (length fields) in
    if ((count <? min) || (max <? count))%Z
    then if (min =? max)%Z then Err (ErrExpectedExactly min count fields)
         else Err (ErrExpectedBetween min max count fields)
    else Ok (distribute (configured options) places defaults (completed options fields)).
Proof.
  pose proof (configured_effective options) as Hcfg.
  unfold normalizeFields, optionalFlags, completed, maxFields.
  set (m := countFields (configured options) places).
  destruct (has options SecondOptional) eqn:E1, (has options DowOptional) eqn:E2;
    cbv beta iota zeta.
  - rewrite (has_lor options Second DowOptional), E2 by (cbv; discriminate). reflexivity.
  - rewrite (has_lor options Second DowOptional), E2 by (cbv; discriminate).
    change (has Second DowOptional) with false. cbv beta iota zeta. cbn [orb].
    assert (Hcount : countFields (has (Z.lor options Second)) places = m)
      by (apply countFields_ext; exact Hcfg).
    rewrite !fold_left_count, Hcount.
    change (1 <? 0 + 1)%Z with false. change (1 <? 1 + 0)%Z with false. cbv iota.
    replace (0 + Z.of_nat m - (0 + 1))%Z with (Z.of_nat m - (1 + 0))%Z by lia.
    replace (0 + Z.of_nat m)%Z with (Z.of_nat m) by lia.
    destruct ((Z.of_nat (length fields) <? Z.of_nat m - (1 + 0))%Z
              || (Z.of_nat m <? Z.of_nat (length fields))%Z) eqn:Hrange; [reflexivity|].
    apply orb_false_iff in Hrange as [Hlo Hhi].
    apply Z.ltb_ge in Hlo, Hhi.
    rewrite ?has_lor, ?E1, ?E2 by (cbv; discriminate).
    change (has Second DowOptional) with false. cbn [orb].
    destruct (Z.ltb_spec (Z.of_nat (length fields)) (Z.of_nat m)) as [Hlt|Hge].
    + replace ((Z.of_nat m - (1 + 0) <? Z.of_nat m)%Z) with true
        by (symmetry; apply Z.ltb_lt; lia).
      replace ((Z.of_nat (length fields) =? Z.of_nat m - (1 + 0))%Z) with true
        by (symmetry; apply Z.eqb_eq; lia).
      cbn [andb bind]. change (index defaults 0) with (Ok (A := string) "0"). cbn [bind app].
      change (copy (replicate (length places) EmptyString) defaults) with defaults.
      rewrite loop_from_start by (rewrite Hcount; cbn [length]; lia).
      f_equal. apply distribute_ext. exact Hcfg.
    + replace ((Z.of_nat (length fields) =? Z.of_nat m - (1 + 0))%Z) with false
        by (symmetry; apply Z.eqb_neq; lia).
      rewrite andb_false_r. cbn [bind].
      change (copy (replicate (length places) EmptyString) defaults) with defaults.
      rewrite loop_from_start by (rewrite Hcount; lia).
      f_equal. apply distribute_ext. exact Hcfg.
  - assert (Hcount : countFields (has (Z.lor options Dow)) places = m)
      by (apply countFields_ext; exact Hcfg).
    rewrite !fold_left_count, Hcount.
    change (1 <? 0 + 1)%Z with false. cbv iota.
    replace (0 + Z.of_nat m - (0 + 1))%Z with (Z.of_nat m - (0 + 1))%Z by lia.
    replace (0 + Z.of_nat m)%Z with (Z.of_nat m) by lia.
    destruct ((Z.of_nat (length fields) <? Z.of_nat m - (0 + 1))%Z
              || (Z.of_nat m <? Z.of_nat (length fields))%Z) eqn:Hrange; [reflexivity|].
    apply orb_false_iff in Hrange as [Hlo Hhi].
    apply Z.ltb_ge in Hlo, Hhi.
    rewrite ?has_lor, ?E1, ?E2 by (cbv; discriminate). cbn [orb].
    destruct (Z.ltb_spec (Z.of_nat (length fields)) (Z.of_nat m)) as [Hlt|Hge].
    + replace ((Z.of_nat m - (0 + 1) <? Z.of_nat m)%Z) with true
        by (symmetry; apply Z.ltb_lt; lia).
      replace ((Z.of_nat (length fields) =? Z.of_nat m - (0 + 1))%Z) with true
        by (symmetry; apply Z.eqb_eq; lia).
      cbn [andb bind]. change (index defaults 5) with (Ok (A := string) "*"). cbn [bind].
      change (copy (replicate (length places) EmptyString) defaults) with defaults.
      rewrite loop_from_start by (rewrite Hcount, length_app; cbn [length]; lia).
      f_equal. apply distribute_ext. exact Hcfg.
    + replace ((Z.of_nat (length fields) =? Z.of_nat m - (0 + 1))%Z) with false
        by (symmetry; apply Z.eqb_neq; lia).
      rewrite andb_false_r. cbn [bind].
      change (copy (replicate (length places) EmptyString) defaults) with defaults.
      rewrite loop_from_start by (rewrite Hcount; lia).
      f_equal. apply distribute_ext. exact Hcfg.
  - assert (Hcount : countFields (has options) places = m)
      by (apply countFields_ext; exact Hcfg).
    rewrite !fold_left_count, Hcount.
    change (1 <? 0)%Z with false. change (1 <? 0 + 0)%Z with false. cbv iota.
    replace (0 + Z.of_nat m - 0)%Z with (Z.of_nat m - (0 + 0))%Z by lia.
    replace (0 + Z.of_nat m)%Z with (Z.of_nat m) by lia.
    destruct ((Z.of_nat (length fields) <? Z.of_nat m - (0 + 0))%Z
              || (Z.of_nat m <? Z.of_nat (length fields))%Z) eqn:Hrange; [reflexivity|].
    apply orb_false_iff in Hrange as [Hlo Hhi].
    apply Z.ltb_ge in Hlo, Hhi.
    replace ((Z.of_nat m - (0 + 0) <? Z.of_nat m)%Z) with false
      by (symmetry; apply Z.ltb_ge; lia).
    replace ((Z.of_nat (length fields) <? Z.of_nat m)%Z) with false
      by (symmetry; apply Z.ltb_ge; lia).
    cbn [andb bind].
    change (copy (replicate (length places) EmptyString) defaults) with defaults.
    rewrite loop_from_start by (rewrite Hcount; lia).
    f_equal. apply distribute_ext. exact Hcfg.
Qed.

Lemma optionalFlags_range (options : ParseOption) : (0 <= optionalFlags options <= 2)%Z.
Proof.
  unfold optionalFlags.
  destruct (has options SecondOptional), (has options DowOptional); lia.
Qed.

Lemma distribute_places_length (cfg : ParseOption -> bool) (tokens : list string) :
  length (distribute cfg places defaults tokens) = 6%nat.
Proof. now apply distribute_length. Qed.

Lemma normalizeFields_total (fields : list string) (options : ParseOption) :
  returns (normalizeFields fields options).
Proof.
  rewrite normalizeFields_normal_form. cbv zeta.
  destruct (1 <? optionalFlags options)%Z; [apply returns_Err|].
  destruct (_ || _)%bool; [destruct (_ =? _)%Z; apply returns_Err|apply returns_Ok].
Qed.

Lemma normalizeFields_Ok_inv (fields out : list string) (options : ParseOption) :
  normalizeFields fields options = Ok out ->
  (optionalFlags options <= 1 /\
   maxFields options - optionalFlags options <= Z.of_nat (length fields) <= maxFields options /\
   out = distribute (configured options) places defaults (completed options fields))%Z.
Proof.
  rewrite normalizeFields_normal_form. cbv zeta.
  destruct (Z.ltb_spec 1 (optionalFlags options)) as [Hopt|Hopt]; [discriminate|].
  destruct (Z.ltb_spec (Z.of_nat (length fields)) (maxFields options - optionalFlags options)),
    (Z.ltb_spec (maxFields options) (Z.of_nat (length fields))); cbn [orb].
  1-3: destruct (_ =? _)%Z; discriminate.
  intros [= <-]. repeat split; lia.
Qed.

Lemma normalizeFields_length (fields out : list string) (options : ParseOption) :
  normalizeFields fields options = Ok out -> length out = 6%nat.
Proof.
  intros Hn. apply normalizeFields_Ok_inv in Hn as (_ & _ & ->).
  apply distribute_places_length.
Qed.

(** Extra X11: normalizeFields always comes back, with six fields or with an
    error: it does not panic on any list of tokens and any options (all its
    indexing stays within the lists), a list it returns has length 6, and it
    never returns the error "unknown optional field". *)
Theorem normalizeFields_returns (fields : list string) (options : ParseOption) :
  returns (normalizeFields fields options) /\
  normalizeFields fields options <> Err ErrUnknownOptional /\
  (forall out, normalizeFields fields options = Ok out -> length out = 6%nat).
Proof.
  rewrite normalizeFields_normal_form. cbv zeta.
  destruct (1 <? optionalFlags options)%Z.
  { split; [apply returns_Err|]. split; [discriminate|]. discriminate. }
  destruct (_ || _)%bool.
  { destruct (_ =? _)%Z; (split; [apply returns_Err|]); (split; discriminate). }
  split; [apply returns_Ok|]. split; [discriminate|].
  intros out [= <-]. apply distribute_places_length.
Qed.

(** Extra X12: normalizeFields accepts a list of tokens exactly when at most
    one optional flag is set and the number of tokens is the number of
    configured fields, or one less when an optional flag is set; the list it
    returns is then the distribution of the completed tokens over the six
    places, each field that is not configured taking its default. *)
Theorem normalizeFields_accepts (fields out : list string) (options : ParseOption) :
  normalizeFields fields options = Ok out <->
  (optionalFlags options <= 1 /\
   maxFields options - optionalFlags options <= Z.of_nat (length fields) <= maxFields options /\
   out = distribute (configured options) places defaults (completed options fields))%Z.
Proof.
  rewrite normalizeFields_normal_form. cbv zeta.
  destruct (Z.ltb_spec 1 (optionalFlags options)) as [Hopt|Hopt].
  { split; [discriminate|]. intros (H & _). lia. }
  destruct (Z.ltb_spec (Z.of_nat (length fields)) (maxFields options - optionalFlags options)),
    (Z.ltb_spec (maxFields options) (Z.of_nat (length fields))); cbn [orb].
  1-3: split; [destruct (_ =? _)%Z; discriminate|intros (_ & H' & _); lia].
  split.
  - intros [= <-]. repeat split; lia.
  - intros (_ & _ & ->). reflexivity.
Qed.

(** Extra X13: the errors of normalizeFields.  With both optional flags:
    "multiple optionals may not be configured", whatever the tokens.  With
    no optional flag and a number of tokens other than the number max of
    configured fields: "expected exactly max fields".  With one optional flag
    and fewer than max - 1 or more than max tokens: "expected max-1 to max
    fields".  Each count error carries the count and the tokens. *)
Theorem normalizeFields_rejects (fields : list string) (options : ParseOption) :
  let max := maxFields options in
  let count := Z.of_nat (length fields) in
  (has options SecondOptional = true -> has options DowOptional = true ->
   normalizeFields fields options = Err ErrMultipleOptionals) /\
  (has options SecondOptional = false -> has options DowOptional = false ->
   count <> max ->
   normalizeFields fields options = Err (ErrExpectedExactly max count fields)) /\
  (xorb (has options SecondOptional) (has options DowOptional) = true ->
   (count < max - 1 \/ max < count)%Z ->
   normalizeFields fields options = Err (ErrExpectedBetween (max - 1) max count fields)).
Proof.
  cbv zeta. rewrite normalizeFields_normal_form. cbv zeta. unfold optionalFlags.
  split; [|split].
  - intros -> ->. reflexivity.
  - intros -> -> Hne. change (1 <? 0 + 0)%Z with false. cbv iota.
    replace (maxFields options - (0 + 0))%Z with (maxFields options) by lia.
    rewrite Z.eqb_refl.
    destruct (Z.ltb_spec (Z.of_nat (length fields)) (maxFields options)),
      (Z.ltb_spec (maxFields options) (Z.of_nat (length fields))); cbn [orb];
      try reflexivity; lia.
  - intros Hx Hout.
    assert (Hone : ((if has options SecondOptional then 1 else 0) +
                    (if has options DowOptional then 1 else 0) = 1)%Z).
    { destruct (has options SecondOptional), (has options DowOptional);
        try discriminate Hx; reflexivity. }
    rewrite Hone. change (1 <? 1)%Z with false. cbv iota.
    replace ((maxFields options - 1 =? maxFields options)%Z) with false
      by (symmetry; apply Z.eqb_neq; lia).
    destruct (Z.ltb_spec (Z.of_nat (length fields)) (maxFields options - 1)),
      (Z.ltb_spec (maxFields options) (Z.of_nat (length fields))); cbn [orb];
      try reflexivity; lia.
Qed.

Lemma distribute_all (cfg : ParseOption -> bool) (ps : list ParseOption) :
  (forall place, In place ps -> cfg place = true) ->
  forall dflt tokens, length dflt = length ps -> length tokens = length ps ->
    distribute cfg ps dflt tokens = tokens.
Proof.
  induction ps as [|place ps IH]; intros Hall [|d dflt] [|t tokens] Hd Ht;
    try discriminate; [reflexivity|].
  cbn [distribute]. rewrite (Hall place) by now left.
  injection Hd as Hd. injection Ht as Ht.
  f_equal. apply IH; [|exact Hd|exact Ht].
  intros q Hq. apply Hall. now right.
Qed.

Lemma countFields_all (cfg : ParseOption -> bool) (ps : list ParseOption) :
  (forall place, In place ps -> cfg place = true) ->
  countFields cfg ps = length ps.
Proof.
  induction ps as [|place ps IH]; intros Hall; [reflexivity|].
  cbn [countFields length]. rewrite (Hall place) by now left.
  f_equal. apply IH. intros q Hq. apply Hall. now right.
Qed.

(** Extra X14: when all six fields are configured and at most one optional
    flag is set, a list of six tokens is returned as it is. *)
Theorem normalizeFields_six_tokens (fields : list string) (options : ParseOption) :
  (forall place, In place places -> configured options place = true) ->
  (optionalFlags options <= 1)%Z ->
  length fields = 6%nat ->
  normalizeFields fields options = Ok fields.
Proof.
  intros Hall Hopt Hlen.
  pose proof (optionalFlags_range options) as Hr.
  assert (Hmax : maxFields options = 6%Z).
  { unfold maxFields. now rewrite (countFields_all _ _ Hall). }
  rewrite normalizeFields_normal_form. cbv zeta. unfold completed.
  rewrite Hmax, Hlen. change (Z.of_nat 6 <? 6)%Z with false.
  destruct (Z.ltb_spec 1 (optionalFlags options)); [lia|].
  destruct (Z.ltb_spec (Z.of_nat 6) (6 - optionalFlags options)); [lia|].
  cbn [orb]. cbv iota. f_equal.
  apply distribute_all; [exact Hall|reflexivity|exact Hlen].
Qed.

Lemma distribute_sublist (cfg : ParseOption -> bool) (ps : list ParseOption) :
  forall dflt tokens,
    length dflt = length ps ->
    (length tokens <= countFields cfg ps)%nat ->
    tokens `sublist_of` distribute cfg ps dflt tokens.
Proof.
  induction ps as [|place ps IH]; intros [|d dflt] tokens Hd Ht; try discriminate.
  - destruct tokens; [constructor|cbn in Ht; lia].
  - injection Hd as Hd. cbn [distribute countFields] in *.
    destruct (cfg place).
    + destruct tokens as [|t tokens].
      * apply sublist_nil_l.
      * apply sublist_skip, IH; [exact Hd|cbn [length] in Ht; lia].
    + apply sublist_cons, IH; assumption.
Qed.

(** Extra X15: normalizeFields loses no token and keeps their order: the
    tokens it was given are a sub-list of the six fields it returns. *)
Theorem normalizeFields_keeps_tokens (fields out : list string) (options : ParseOption) :
  normalizeFields fields options = Ok out -> fields `sublist_of` out.
Proof.
  intros Hn. apply normalizeFields_Ok_inv in Hn as (Hopt & Hcount & ->).
  transitivity (completed options fields).
  - unfold completed. destruct (_ <? _)%Z; [|reflexivity].
    destruct (has options DowOptional).
    + apply sublist_inserts_r. reflexivity.
    + apply sublist_cons. reflexivity.
  - apply distribute_sublist; [reflexivity|].
    unfold completed, maxFields in *. pose proof (optionalFlags_range options).
    destruct (Z.ltb_spec (Z.of_nat (length fields))
                (Z.of_nat (countFields (configured options) places))); [|lia].
    destruct (has options DowOptional); [rewrite length_app|]; cbn [length]; lia.
Qed.

(** Extra X16: NewParser panics with "multiple optionals may not be
    configured" exactly when both optional flags are set, and returns the
    parser with the given options otherwise; normalizeFields returns the
    error "multiple optionals may not be configured" for the options
    NewParser refuses, whatever the tokens, and for no others. *)
Theorem NewParser_checks (options : ParseOption) :
  (has options SecondOptional && has options DowOptional = false ->
   NewParser options = Ok (Build_Parser options) /\
   forall fields, normalizeFields fields options <> Err ErrMultipleOptionals) /\
  (has options SecondOptional && has options DowOptional = true ->
   NewParser options = Panic (PanicMsg "multiple optionals may not be configured") /\
   forall fields, normalizeFields fields options = Err ErrMultipleOptionals).
Proof.
  unfold NewParser. split; intros Hboth.
  - split.
    + destruct (has options SecondOptional), (has options DowOptional);
        try discriminate Hboth; reflexivity.
    + intros fields. rewrite normalizeFields_normal_form. cbv zeta. unfold optionalFlags.
      destruct (has options SecondOptional), (has options DowOptional);
        try discriminate Hboth; cbn [Z.add Z.ltb Z.compare Pos.compare Pos.compare_cont];
        (destruct (_ || _)%bool; [destruct (_ =? _)%Z|]); discriminate.
  - apply andb_true_iff in Hboth as [E1 E2]. rewrite E1, E2. split; [reflexivity|].
    intros fields. rewrite normalizeFields_normal_form. unfold optionalFlags.
    now rewrite E1, E2.
Qed.

(** ** Positions and substrings *)

Lemma Index_app (a b : string) (c : ascii) :
  occurs c a = false ->
  strings.Index (a +:+ String c b) c = Z.of_nat (String.length a).
Proof.
  induction a as [|x a IH]; intros Ho.
  - change (EmptyString +:+ String c b) with (String c b).
    cbn [strings.Index]. now rewrite Ascii.eqb_refl.
  - change (String x a +:+ String c b) with (String x (a +:+ String c b)).
    cbn [occurs] in Ho. apply orb_false_iff in Ho as [Hx Ha].
    cbn [strings.Index String.length]. rewrite Hx, (IH Ha).
    destruct (Z.ltb_spec (Z.of_nat (String.length a)) 0); lia.
Qed.

Lemma length_append (a b : string) :
  String.length (a +:+ b) = (String.length a + String.length b)%nat.
Proof.
  induction a as [|x a IH]; [reflexivity|].
  change (String x a +:+ b) with (String x (a +:+ b)).
  cbn [String.length]. now rewrite IH.
Qed.

Lemma substring_prefix (a b : string) :
  String.substring 0 (String.length a) (a +:+ b) = a.
Proof.
  induction a as [|x a IH]; [now destruct b|].
  change (String x a +:+ b) with (String x (a +:+ b)).
  cbn [String.length String.substring]. now rewrite IH.
Qed.

Lemma substring_skip (a b : string) (m : nat) :
  String.substring (String.length a) m (a +:+ b) = String.substring 0 m b.
Proof.
  induction a as [|x a IH]; [reflexivity|].
  change (String x a +:+ b) with (String x (a +:+ b)).
  cbn [String.length String.substring]. exact IH.
Qed.

Lemma substring_all (s : string) : String.substring 0 (String.length s) s = s.
Proof.
  induction s as [|x s IH]; [reflexivity|].
  cbn [String.length String.substring]. now rewrite IH.
Qed.

Lemma slice_middle (a b c : string) :
  slice (a +:+ (b +:+ c)) (Z.of_nat (String.length a))
    (Z.of_nat (String.length a + String.length b)) = Ok b.
Proof.
  unfold slice. rewrite !length_append.
  destruct (Z.leb_spec 0 (Z.of_nat (String.length a))); [|lia].
  destruct (Z.leb_spec (Z.of_nat (String.length a))
              (Z.of_nat (String.length a + String.length b))); [|lia].
  destruct (Z.leb_spec (Z.of_nat (String.length a + String.length b))
    (Z.of_nat (String.length a + (String.length b + String.length c)))); [|lia].
  cbn [andb]. f_equal.
  replace (Z.to_nat (Z.of_nat (String.length a + String.length b) - Z.of_nat (String.length a)))
    with (String.length b) by lia.
  rewrite Nat2Z.id, substring_skip. apply substring_prefix.
Qed.

Lemma slice_tail (a b : string) :
  slice (a +:+ b) (Z.of_nat (String.length a)) (Z.of_nat (String.length (a +:+ b))) = Ok b.
Proof.
  unfold slice. rewrite !length_append.
  destruct (Z.leb_spec 0 (Z.of_nat (String.length a))); [|lia].
  destruct (Z.leb_spec (Z.of_nat (String.length a))
              (Z.of_nat (String.length a + String.length b))); [|lia].
  rewrite Z.leb_refl. cbn [andb]. f_equal.
  replace (Z.to_nat (Z.of_nat (String.length a + String.length b) - Z.of_nat (String.length a)))
    with (String.length b) by lia.
  rewrite Nat2Z.id, substring_skip. apply substring_all.
Qed.

Lemma slice_in_range (s : string) (lo hi : Z) :
  (0 <= lo <= hi)%Z -> (hi <= Z.of_nat (String.length s))%Z ->
  exists t, slice s lo hi = Ok t.
Proof.
  intros [H1 H2] H3. unfold slice.
  destruct (Z.leb_spec 0 lo), (Z.leb_spec lo hi),
    (Z.leb_spec hi (Z.of_nat (String.length s))); try lia. eauto.
Qed.

Lemma HasPrefix_append (a b : string) : strings.HasPrefix (a +:+ b) a = true.
Proof.
  unfold strings.HasPrefix. induction a as [|x a IH]; [now destruct b|].
  change (String x a +:+ b) with (String x (a +:+ b)). cbn [String.prefix].
  destruct (ascii_dec x x); [exact IH|congruence].
Qed.

Lemma HasPrefix_cases (s p : string) :
  strings.HasPrefix s p = true -> exists t, s = p +:+ t.
Proof.
  unfold strings.HasPrefix. revert s. induction p as [|x p IH]; intros s Hp.
  - exists s. reflexivity.
  - destruct s as [|y s]; [discriminate|]. cbn [String.prefix] in Hp.
    destruct (ascii_dec x y) as [->|]; [|discriminate].
    destruct (IH s Hp) as (t & ->). exists t. reflexivity.
Qed.

Lemma Index_present (s : string) (c : ascii) :
  occurs c s = true -> (0 <= strings.Index s c < Z.of_nat (String.length s))%Z.
Proof.
  induction s as [|a s IH]; [discriminate|].
  cbn [occurs strings.Index String.length].
  destruct (Ascii.eqb a c); [lia|]. cbn [orb]. intros Ho. specialize (IH Ho).
  destruct (Z.ltb_spec (strings.Index s c) 0); lia.
Qed.

Lemma Index_skip (a s : string) (c : ascii) :
  occurs c a = false -> occurs c s = true ->
  strings.Index (a +:+ s) c = (Z.of_nat (String.length a) + strings.Index s c)%Z.
Proof.
  intros Ha Hs. induction a as [|x a IH].
  { change (EmptyString +:+ s) with s. cbn [String.length]. lia. }
  change (String x a +:+ s) with (String x (a +:+ s)).
  cbn [occurs] in Ha. apply orb_false_iff in Ha as [Hx Ha].
  cbn [strings.Index String.length]. rewrite Hx, (IH Ha).
  pose proof (Index_present s c Hs).
  destruct (Z.ltb_spec (Z.of_nat (String.length a) + strings.Index s c) 0); lia.
Qed.

Lemma distribute_unconfigured (cfg : ParseOption -> bool) (tokens : list string) :
  (cfg Second = false ->
   exists rest, distribute cfg places defaults tokens = "0" :: rest) /\
  (cfg Minute = false ->
   exists f0 rest, distribute cfg places defaults tokens = f0 :: "0" :: rest).
Proof.
  unfold places, defaults. split; intros Hc.
  - cbn [distribute]. rewrite Hc. eauto.
  - cbn [distribute]. destruct (cfg Second); [destruct tokens|]; rewrite Hc; eauto.
Qed.

(** ** parseDescriptor and Parse (parser.go, 88-156 and 396-465) *)

Section ParseMore.

Context `{Time}.

Ltac table_case :=
  left; eexists; split; [cbn; auto 10|]; split; [vm_compute; reflexivity|];
  repeat split.

(** The three ways of parseDescriptor: a descriptor of the table, an
    interval, anything else. *)
Lemma parseDescriptor_cases (descriptor : string) (loc : Location) :
  (exists s, In descriptor descriptorNames /\
             parseDescriptor descriptor loc = Ok (Spec s) /\
             Sched_Location s = loc /\ Sched_Second s = 1 /\ Sched_Minute s = 1) \/
  (exists text, descriptor = "@every " +:+ text /\
     parseDescriptor descriptor loc =
     match ParseDuration text with
     | inl d => Ok (Every d)
     | inr err => Err (ErrParseDuration descriptor err)
     end) \/
  parseDescriptor descriptor loc = Err (ErrUnrecognizedDescriptor descriptor).
Proof.
  unfold parseDescriptor, descriptorNames.
  destruct (String.eqb_spec descriptor "@yearly") as [->|_]; [table_case|].
  destruct (String.eqb_spec descriptor "@annually") as [->|_]; [table_case|].
  destruct (String.eqb_spec descriptor "@monthly") as [->|_]; [table_case|].
  destruct (String.eqb_spec descriptor "@weekly") as [->|_]; [table_case|].
  destruct (String.eqb_spec descriptor "@daily") as [->|_]; [table_case|].
  destruct (String.eqb_spec descriptor "@midnight") as [->|_]; [table_case|].
  destruct (String.eqb_spec descriptor "@hourly") as [->|_]; [table_case|].
  cbn [orb].
  destruct (strings.HasPrefix descriptor every) eqn:Hp; [|now right; right].
  right; left. apply HasPrefix_cases in Hp as (text & ->). exists text.
  split; [reflexivity|].
  change (Z.of_nat (String.length every)) with (Z.of_nat (String.length "@every ")).
  unfold every. rewrite slice_tail. cbn [bind].
  destruct (ParseDuration text); reflexivity.
Qed.

(** Extra X17: parseDescriptor always comes back.  It returns a field
    schedule only for the seven descriptors of its table, with the location
    it was given and with the second and the minute pinned to 0 (mask 1); an
    interval schedule only for ["@every "] followed by a text that
    time.ParseDuration accepts, with that duration; its errors are "failed
    to parse duration" for ["@every "] with another text and "unrecognized
    descriptor" for the rest. *)
Theorem parseDescriptor_results (descriptor : string) (loc : Location) :
  returns (parseDescriptor descriptor loc) /\
  (forall s, parseDescriptor descriptor loc = Ok (Spec s) ->
     In descriptor descriptorNames /\ Sched_Location s = loc /\
     Sched_Second s = 1 /\ Sched_Minute s = 1) /\
  (forall d, parseDescriptor descriptor loc = Ok (Every d) ->
     exists text, descriptor = "@every " +:+ text /\ ParseDuration text = inl d) /\
  (forall e, parseDescriptor descriptor loc = Err e ->
     e = ErrUnrecognizedDescriptor descriptor \/
     exists text err, descriptor = "@every " +:+ text /\ ParseDuration text = inr err /\
                      e = ErrParseDuration descriptor err).
Proof.
  destruct (parseDescriptor_cases descriptor loc)
    as [(s & Hin & -> & Hloc & Hsec & Hmin)|[(text & Hd & ->)| ->]].
  - split; [apply returns_Ok|]. split; [|split; discriminate].
    intros s' [= <-]. auto.
  - destruct (ParseDuration text) as [d|err] eqn:Hdur.
    + split; [apply returns_Ok|]. split; [discriminate|]. split; [|discriminate].
      intros d' [= <-]. eauto.
    + split; [apply returns_Err|]. split; [discriminate|]. split; [discriminate|].
      intros e [= <-]. right. eauto.
  - split; [apply returns_Err|]. split; [discriminate|]. split; [discriminate|].
    intros e [= <-]. now left.
Qed.

Lemma parseDescriptor_returns (descriptor : string) (loc : Location) :
  returns (parseDescriptor descriptor loc).
Proof.
  destruct (parseDescriptor_cases descriptor loc)
    as [(s & _ & -> & _)|[(text & _ & ->)| ->]];
    [apply returns_Ok| |apply returns_Err].
  destruct (ParseDuration text); [apply returns_Ok|apply returns_Err].
Qed.

Lemma parseDescriptor_Spec (descriptor : string) (loc : Location) (s : SpecSchedule) :
  parseDescriptor descriptor loc = Ok (Spec s) ->
  Sched_Second s = 1 /\ Sched_Minute s = 1.
Proof.
  destruct (parseDescriptor_cases descriptor loc)
    as [(s' & _ & -> & _ & Hsec & Hmin)|[(text & _ & ->)| ->]].
  - intros [= <-]. auto.
  - destruct (ParseDuration text); discriminate.
  - discriminate.
Qed.

(** The closure of Parse and its shared error variable come to the same as
    stopping at the first error. *)
Lemma fields_short_circuit (loc : Location) (f0 f1 f2 f3 f4 f5 : string) :
  (let fields := [f0; f1; f2; f3; f4; f5] in
   let err := None in
   let* f0 := index fields 0 in
   let* '(second, err) := field err f0 seconds in
   let* f1 := index fields 1 in
   let* '(minute, err) := field err f1 minutes in
   let* f2 := index fields 2 in
   let* '(hour, err) := field err f2 hours in
   let* f3 := index fields 3 in
   let* '(dayofmonth, err) := field err f3 dom in
   let* f4 := index fields 4 in
   let* '(month, err) := field err f4 months in
   let* f5 := index fields 5 in
   let* '(dayofweek, err) := field err f5 dow in
   match err with
   | Some e => Err e
   | None =>
       Ok (Spec {| Sched_Second := second; Sched_Minute := minute; Sched_Hour := hour;
                   Sched_Dom := dayofmonth; Sched_Month := month; Sched_Dow := dayofweek;
                   Sched_Location := loc |})
   end) = compileFields loc [f0; f1; f2; f3; f4; f5].
Proof.
  cbv zeta.
  change (index [f0; f1; f2; f3; f4; f5] 0) with (Ok (A := string) f0).
  change (index [f0; f1; f2; f3; f4; f5] 1) with (Ok (A := string) f1).
  change (index [f0; f1; f2; f3; f4; f5] 2) with (Ok (A := string) f2).
  change (index [f0; f1; f2; f3; f4; f5] 3) with (Ok (A := string) f3).
  change (index [f0; f1; f2; f3; f4; f5] 4) with (Ok (A := string) f4).
  change (index [f0; f1; f2; f3; f4; f5] 5) with (Ok (A := string) f5).
  unfold compileFields, field. cbn [bind].
  destruct (getField f0 seconds); cbn [bind]; try reflexivity.
  destruct (getField f1 minutes); cbn [bind]; try reflexivity.
  destruct (getField f2 hours); cbn [bind]; try reflexivity.
  destruct (getField f3 dom); cbn [bind]; try reflexivity.
  destruct (getField f4 months); cbn [bind]; try reflexivity.
  destruct (getField f5 dow); cbn [bind]; reflexivity.
Qed.

(** Parse is its time zone part followed by parseSchedule. *)
Lemma Parse_parseSchedule (p : Parser) (spec : string) :
  Parse p spec =
  if (String.length spec =? 0)%nat then Err ErrEmptySpec
  else
    let* '(loc, spec) :=
      if strings.HasPrefix spec "TZ=" || strings.HasPrefix spec "CRON_TZ="
      then
        let i := strings.Index spec " " in
        let eq := strings.Index spec "=" in
        let* name := slice spec (eq + 1) i in
        match LoadLocation name with
        | inr err => Err (ErrBadLocation name err)
        | inl loc =>
            let* rest := slice spec i (Z.of_nat (String.length spec)) in
            Ok (loc, strings.TrimSpace rest)
        end
      else Ok (Local, spec) in
    parseSchedule p loc spec.
Proof.
  unfold Parse. destruct (String.length spec =? 0)%nat; [reflexivity|].
  destruct (_ : go (Location * string)) as [[loc spec']| | |]; cbn [bind]; try reflexivity.
  unfold parseSchedule. destruct (strings.HasPrefix spec' "@"); [reflexivity|].
  cbv zeta.
  destruct (normalizeFields (strings.Fields spec') p.(options)) as [fields| | |] eqn:Hn;
    cbn [bind]; try reflexivity.
  pose proof (normalizeFields_length _ _ _ Hn) as Hlen.
  destruct fields as [|f0 [|f1 [|f2 [|f3 [|f4 [|f5 [|f6 fields]]]]]]]; try discriminate Hlen.
  apply fields_short_circuit.
Qed.

Lemma compileFields_returns (loc : Location) (fields : list string) :
  length fields = 6%nat -> returns (compileFields loc fields).
Proof.
  intros Hlen.
  destruct fields as [|f0 [|f1 [|f2 [|f3 [|f4 [|f5 [|f6 fields]]]]]]]; try discriminate Hlen.
  unfold compileFields.
  repeat (apply returns_bind; [apply getField_returns; cbn; lia|intros ?]).
  apply returns_Ok.
Qed.

Lemma parseSchedule_returns (p : Parser) (loc : Location) (spec : string) :
  returns (parseSchedule p loc spec).
Proof.
  unfold parseSchedule. destruct (strings.HasPrefix spec "@").
  - destruct (_ =? 0)%Z; [apply returns_Err|apply parseDescriptor_returns].
  - destruct (normalizeFields_total (strings.Fields spec) p.(options))
      as [[out Hn]|[e Hn]]; rewrite Hn; cbn [bind]; [|apply returns_Err].
    apply compileFields_returns. exact (normalizeFields_length _ _ _ Hn).
Qed.

Lemma compileFields_Spec (loc : Location) (fields : list string) (sched : Schedule) :
  compileFields loc fields = Ok sched ->
  exists f0 f1 f2 f3 f4 f5 s,
    fields = [f0; f1; f2; f3; f4; f5] /\ sched = Spec s /\
    getField f0 seconds = Ok (Sched_Second s) /\
    getField f1 minutes = Ok (Sched_Minute s) /\
    getField f2 hours = Ok (Sched_Hour s) /\
    getField f3 dom = Ok (Sched_Dom s) /\
    getField f4 months = Ok (Sched_Month s) /\
    getField f5 dow = Ok (Sched_Dow s) /\
    Sched_Location s = loc.
Proof.
  unfold compileFields.
  destruct fields as [|f0 [|f1 [|f2 [|f3 [|f4 [|f5 [|f6 fields]]]]]]]; try discriminate.
  intros Hc.
  apply bind_Ok in Hc as (b0 & H0 & Hc). apply bind_Ok in Hc as (b1 & H1 & Hc).
  apply bind_Ok in Hc as (b2 & H2 & Hc). apply bind_Ok in Hc as (b3 & H3 & Hc).
  apply bind_Ok in Hc as (b4 & H4 & Hc). apply bind_Ok in Hc as (b5 & H5 & Hc).
  injection Hc as <-. repeat eexists; eassumption.
Qed.

Lemma Parse_Ok_inv (p : Parser) (spec : string) (sched : Schedule) :
  Parse p spec = Ok sched ->
  exists loc spec', parseSchedule p loc spec' = Ok sched.
Proof.
  rewrite Parse_parseSchedule. destruct (String.length spec =? 0)%nat; [discriminate|].
  intros Hp. apply bind_Ok in Hp as ([loc spec'] & _ & Hp). eauto.
Qed.

(** A time zone in front of a spec: the pieces Parse cuts it into. *)
Lemma timezone_pieces (prefix name rest : string) :
  prefix = "TZ=" \/ prefix = "CRON_TZ=" ->
  occurs " " name = false ->
  let spec := prefix +:+ (name +:+ String " " rest) in
  (String.length spec =? 0)%nat = false /\
  strings.HasPrefix spec "TZ=" || strings.HasPrefix spec "CRON_TZ=" = true /\
  slice spec (strings.Index spec "=" + 1) (strings.Index spec " ") = Ok name /\
  slice spec (strings.Index spec " ") (Z.of_nat (String.length spec)) = Ok (String " " rest).
Proof.
  intros Hprefix Hname spec.
  assert (Hspace : strings.Index spec " " =
                   Z.of_nat (String.length prefix + String.length name)).
  { subst spec. rewrite <- append_assoc, Index_app, length_append; [reflexivity|].
    rewrite occurs_app, Hname. destruct Hprefix as [-> | ->]; reflexivity. }
  assert (Heq : (strings.Index spec "=" + 1)%Z = Z.of_nat (String.length prefix)).
  { subst spec. destruct Hprefix as [-> | ->].
    - change ("TZ=" +:+ (name +:+ String " " rest))
        with ("TZ" +:+ String "=" (name +:+ String " " rest)).
      now rewrite Index_app.
    - change ("CRON_TZ=" +:+ (name +:+ String " " rest))
        with ("CRON_TZ" +:+ String "=" (name +:+ String " " rest)).
      now rewrite Index_app. }
  split; [|split; [|split]].
  - subst spec. destruct Hprefix as [-> | ->]; reflexivity.
  - subst spec. apply orb_true_iff.
    destruct Hprefix as [-> | ->]; [left|right]; apply HasPrefix_append.
  - rewrite Heq, Hspace. subst spec. apply slice_middle.
  - rewrite Hspace. subst spec. rewrite <- append_assoc, <- length_append.
    apply slice_tail.
Qed.

Lemma parseDescriptor_location (descriptor : string) (loc : Location) :
  parseDescriptor descriptor loc = withLocation loc (parseDescriptor descriptor Local).
Proof.
  unfold parseDescriptor.
  repeat match goal with
         | |- context [if ?c then _ else _] => destruct c; [vm_compute; reflexivity|]
         end.
  destruct (strings.HasPrefix descriptor every); [|reflexivity].
  destruct (slice _ _ _); cbn [bind withLocation]; try reflexivity.
  destruct (ParseDuration _); reflexivity.
Qed.

Lemma compileFields_location (loc : Location) (fields : list string) :
  compileFields loc fields = withLocation loc (compileFields Local fields).
Proof.
  unfold compileFields.
  destruct fields as [|f0 [|f1 [|f2 [|f3 [|f4 [|f5 [|f6 fields]]]]]]]; try reflexivity.
  destruct (getField f0 seconds); cbn [bind]; try reflexivity.
  destruct (getField f1 minutes); cbn [bind]; try reflexivity.
  destruct (getField f2 hours); cbn [bind]; try reflexivity.
  destruct (getField f3 dom); cbn [bind]; try reflexivity.
  destruct (getField f4 months); cbn [bind]; try reflexivity.
  destruct (getField f5 dow); cbn [bind]; reflexivity.
Qed.

Lemma parseSchedule_location (p : Parser) (loc : Location) (spec : string) :
  parseSchedule p loc spec = withLocation loc (parseSchedule p Local spec).
Proof.
  unfold parseSchedule. destruct (strings.HasPrefix spec "@").
  - destruct (_ =? 0)%Z; [reflexivity|]. apply parseDescriptor_location.
  - destruct (normalizeFields _ _); cbn [bind]; try reflexivity.
    apply compileFields_location.
Qed.

(** Extra X18: for a spec of ASCII bytes that is not empty and starts
    neither with a time zone nor with [@], Parse splits the spec at white
    space, normalizes the tokens and compiles the six fields from the second
    to the day of week, in the local time zone; the first field that is
    refused gives the error of Parse and ends the compilation (the fields
    after it are not compiled). *)
Theorem Parse_fields_in_order (p : Parser) (spec : string) :
  isASCII spec = true ->
  spec <> EmptyString ->
  strings.HasPrefix spec "TZ=" = false ->
  strings.HasPrefix spec "CRON_TZ=" = false ->
  strings.HasPrefix spec "@" = false ->
  Parse p spec =
  let* fields := normalizeFields (strings.Fields spec) p.(options) in
  compileFields Local fields.
Proof.
  intros _ Hne Htz Hcron Hat. rewrite Parse_parseSchedule, Htz, Hcron.
  destruct spec as [|x spec]; [congruence|].
  cbn [String.length Nat.eqb orb bind]. unfold parseSchedule. now rewrite Hat.
Qed.

(** Extra X19: a spec [TZ=name rest] or [CRON_TZ=name rest], with a name
    without space that time.LoadLocation knows and a rest of ASCII bytes,
    parses as the rest without the white space around it does, with the
    location of the name in the schedule: the same masks, the same interval,
    the same error.  (The rest is not empty after trimming and does not
    start with a time zone itself.) *)
Theorem Parse_timezone_prefix (p : Parser) (prefix name rest : string) (loc : Location) :
  prefix = "TZ=" \/ prefix = "CRON_TZ=" ->
  isASCII rest = true ->
  occurs " " name = false ->
  LoadLocation name = inl loc ->
  strings.TrimSpace rest <> EmptyString ->
  strings.HasPrefix (strings.TrimSpace rest) "TZ=" = false ->
  strings.HasPrefix (strings.TrimSpace rest) "CRON_TZ=" = false ->
  Parse p (prefix +:+ (name +:+ String " " rest)) =
  withLocation loc (Parse p (strings.TrimSpace rest)).
Proof.
  intros Hprefix _ Hname Hloc Hne Htz Hcron.
  destruct (timezone_pieces prefix name rest Hprefix Hname) as (Hlen & Hpre & Hslice & Htail).
  rewrite (Parse_parseSchedule p (prefix +:+ _)), Hlen, Hpre. cbv zeta.
  rewrite Hslice. cbn [bind].
  rewrite Hloc, Htail. cbn [bind].
  change (strings.TrimSpace (String " " rest)) with (strings.TrimSpace rest).
  rewrite (Parse_parseSchedule p (strings.TrimSpace rest)), Htz, Hcron. cbn [orb bind].
  destruct (strings.TrimSpace rest) as [|x t] eqn:Ht; [congruence|].
  cbn [String.length Nat.eqb]. apply parseSchedule_location.
Qed.

(** Extra X20: a spec [TZ=name rest] or [CRON_TZ=name rest] whose name
    (without space) time.LoadLocation refuses gives the error "provided bad
    location" with the name and the error of LoadLocation, whatever the
    rest. *)
Theorem Parse_bad_timezone (p : Parser) (prefix name rest err : string) :
  prefix = "TZ=" \/ prefix = "CRON_TZ=" ->
  occurs " " name = false ->
  LoadLocation name = inr err ->
  Parse p (prefix +:+ (name +:+ String " " rest)) = Err (ErrBadLocation name err).
Proof.
  intros Hprefix Hname Hloc.
  destruct (timezone_pieces prefix name rest Hprefix Hname) as (Hlen & Hpre & Hslice & _).
  rewrite Parse_parseSchedule, Hlen, Hpre. cbv zeta.
  rewrite Hslice. cbn [bind]. now rewrite Hloc.
Qed.

(** Extra X21: a parser without the Descriptor option never returns an
    interval schedule, and it refuses every spec that starts with [@] (and
    has no time zone in front) with the error "parser does not accept
    descriptors". *)
Theorem Parse_without_descriptors (p : Parser) (spec : string) :
  Z.land p.(options) Descriptor = 0%Z ->
  (forall d, Parse p spec <> Ok (Every d)) /\
  (strings.HasPrefix spec "TZ=" = false -> strings.HasPrefix spec "CRON_TZ=" = false ->
   strings.HasPrefix spec "@" = true ->
   Parse p spec = Err (ErrNoDescriptors spec)).
Proof.
  intros Hflag. split.
  - intros d Hp. apply Parse_Ok_inv in Hp as (loc & spec' & Hp).
    unfold parseSchedule in Hp. rewrite Hflag in Hp.
    destruct (strings.HasPrefix spec' "@"); [discriminate|].
    apply bind_Ok in Hp as (fields & _ & Hp).
    apply compileFields_Spec in Hp as (? & ? & ? & ? & ? & ? & s & _ & Hs & _). discriminate.
  - intros Htz Hcron Hat. rewrite Parse_parseSchedule, Htz, Hcron.
    destruct spec as [|x spec]; [discriminate|].
    cbn [String.length Nat.eqb orb bind]. unfold parseSchedule. now rewrite Hat, Hflag.
Qed.

(** Extra X22: ParseStandard refuses every spec of ASCII bytes (not empty,
    without time zone, not a descriptor) that does not have exactly five
    fields, with the error "expected exactly 5 fields" that carries the
    count and the fields. *)
Theorem ParseStandard_field_count (spec : string) :
  isASCII spec = true ->
  spec <> EmptyString ->
  strings.HasPrefix spec "TZ=" = false ->
  strings.HasPrefix spec "CRON_TZ=" = false ->
  strings.HasPrefix spec "@" = false ->
  length (strings.Fields spec) <> 5%nat ->
  ParseStandard spec =
  Err (ErrExpectedExactly 5 (Z.of_nat (length (strings.Fields spec))) (strings.Fields spec)).
Proof.
  intros _ Hne Htz Hcron Hat Hcount. unfold ParseStandard.
  rewrite Parse_parseSchedule, Htz, Hcron.
  destruct spec as [|x spec]; [congruence|].
  cbn [String.length Nat.eqb orb bind]. unfold parseSchedule. rewrite Hat.
  rewrite normalizeFields_normal_form. cbv zeta.
  change (optionalFlags (options standardParser)) with 0%Z.
  change (maxFields (options standardParser)) with 5%Z.
  change (1 <? 0)%Z with false. cbv iota. change (5 - 0 =? 5)%Z with true.
  change (5 - 0)%Z with 5%Z.
  destruct (Z.ltb_spec (Z.of_nat (length (strings.Fields (String x spec)))) 5),
    (Z.ltb_spec 5 (Z.of_nat (length (strings.Fields (String x spec))))); cbn [orb bind];
    try reflexivity; lia.
Qed.

(** Extra X23: in every field schedule Parse returns, from fields or from a
    descriptor, the second is pinned to 0 (mask 1) when the parser has
    neither the Second nor the SecondOptional option, and the minute is
    pinned to 0 (mask 1) when the parser does not have the Minute option. *)
Theorem unconfigured_second_and_minute (p : Parser) (spec : string) (s : SpecSchedule) :
  Parse p spec = Ok (Spec s) ->
  (configured p.(options) Second = false -> Sched_Second s = 1) /\
  (configured p.(options) Minute = false -> Sched_Minute s = 1).
Proof.
  intros Hp. apply Parse_Ok_inv in Hp as (loc & spec' & Hp).
  unfold parseSchedule in Hp. destruct (strings.HasPrefix spec' "@").
  - destruct (_ =? 0)%Z; [discriminate|].
    apply parseDescriptor_Spec in Hp as [-> ->]. split; reflexivity.
  - apply bind_Ok in Hp as (fields & Hn & Hp).
    apply normalizeFields_Ok_inv in Hn as (_ & _ & ->).
    apply compileFields_Spec in Hp
      as (f0 & f1 & f2 & f3 & f4 & f5 & s' & Hfields & [= <-] & H0 & H1 & _).
    destruct (distribute_unconfigured (configured p.(options))
                (completed p.(options) (strings.Fields spec'))) as [Hsec Hmin].
    split; intros Hc.
    + destruct (Hsec Hc) as (rest & Hd). rewrite Hd in Hfields.
      injection Hfields as <- _. vm_compute in H0. now injection H0.
    + destruct (Hmin Hc) as (g0 & rest & Hd). rewrite Hd in Hfields.
      injection Hfields as _ <- _. vm_compute in H1. now injection H1.
Qed.

(** Extra X24: for every parser that has the Descriptor option, whichever
    fields it is configured with, the descriptors of the table parse to the
    schedule the standard parser gives for five fields: [@yearly] and
    [@annually] as [0 0 1 1 *], [@monthly] as [0 0 1 * *], [@daily] and
    [@midnight] as [0 0 * * *], [@hourly] as [0 * * * *]. *)
Theorem descriptor_table (p : Parser) :
  Z.land p.(options) Descriptor <> 0%Z ->
  Parse p "@yearly" = ParseStandard "0 0 1 1 *" /\
  Parse p "@annually" = ParseStandard "0 0 1 1 *" /\
  Parse p "@monthly" = ParseStandard "0 0 1 * *" /\
  Parse p "@daily" = ParseStandard "0 0 * * *" /\
  Parse p "@midnight" = ParseStandard "0 0 * * *" /\
  Parse p "@hourly" = ParseStandard "0 * * * *" /\
  exists s, Parse p "@hourly" = Ok (Spec s).
Proof.
  intros Hflag. apply Z.eqb_neq in Hflag.
  assert (Hd : forall descriptor,
             strings.HasPrefix descriptor "@" = true ->
             strings.HasPrefix descriptor "TZ=" = false ->
             strings.HasPrefix descriptor "CRON_TZ=" = false ->
             Parse p descriptor = parseDescriptor descriptor Local).
  { intros descriptor Hat Htz Hcron. rewrite Parse_parseSchedule, Htz, Hcron.
    destruct descriptor as [|x d]; [discriminate|].
    cbn [String.length Nat.eqb orb bind]. unfold parseSchedule. now rewrite Hat, Hflag. }
  repeat split; try (rewrite Hd by reflexivity; vm_compute; reflexivity).
  eexists. rewrite Hd by reflexivity. vm_compute. reflexivity.
Qed.

(** Extra X25: Parse comes back, with a schedule or with an error, for every
    parser and every spec, except a spec with a time zone in front and no
    space: no field, however malformed, makes it panic or loop (the masks of
    the six fields are below 64 bits). *)
Theorem Parse_returns (p : Parser) (spec : string) :
  (strings.HasPrefix spec "TZ=" || strings.HasPrefix spec "CRON_TZ=" = true ->
   occurs " " spec = true) ->
  returns (Parse p spec).
Proof.
  intros Hspace. rewrite Parse_parseSchedule.
  destruct (String.length spec =? 0)%nat; [apply returns_Err|].
  destruct (strings.HasPrefix spec "TZ=" || strings.HasPrefix spec "CRON_TZ=") eqn:Hpre;
    [|cbn [bind]; apply parseSchedule_returns].
  specialize (Hspace eq_refl). cbv zeta.
  assert (Hcut : exists prefix t,
             spec = prefix +:+ t /\ (prefix = "TZ=" \/ prefix = "CRON_TZ=")).
  { apply orb_true_iff in Hpre as [Hp|Hp]; apply HasPrefix_cases in Hp as (t & ->); eauto. }
  destruct Hcut as (prefix & t & -> & Hprefix).
  assert (Ht : occurs " " t = true).
  { rewrite occurs_app in Hspace. destruct Hprefix as [-> | ->]; exact Hspace. }
  pose proof (Index_present t " " Ht) as Hi.
  assert (Hsp : strings.Index (prefix +:+ t) " " =
                (Z.of_nat (String.length prefix) + strings.Index t " ")%Z).
  { apply Index_skip; [destruct Hprefix as [-> | ->]; reflexivity|exact Ht]. }
  assert (Heq : (strings.Index (prefix +:+ t) "=" + 1)%Z = Z.of_nat (String.length prefix)).
  { destruct Hprefix as [-> | ->].
    - change ("TZ=" +:+ t) with ("TZ" +:+ String "=" t). now rewrite Index_app.
    - change ("CRON_TZ=" +:+ t) with ("CRON_TZ" +:+ String "=" t). now rewrite Index_app. }
  rewrite Heq, Hsp.
  destruct (slice_in_range (prefix +:+ t) (Z.of_nat (String.length prefix))
              (Z.of_nat (String.length prefix) + strings.Index t " ")) as (name & ->);
    [lia|rewrite length_append; lia|].
  cbn [bind]. destruct (LoadLocation name) as [loc|err]; [|apply returns_Err].
  destruct (slice_in_range (prefix +:+ t)
              (Z.of_nat (String.length prefix) + strings.Index t " ")
              (Z.of_nat (String.length (prefix +:+ t)))) as (rest & ->);
    [rewrite length_append; lia|lia|].
  cbn [bind]. apply parseSchedule_returns.
Qed.

End ParseMore.

(** * The further properties on concrete inputs *)

Lemma witness_getBits_mask :
  exists bits,
    getBits 5 59 15 = Ok bits /\
    (forall i, N.testbit bits i = (i <? 64) && stepped 5 59 15 i) /\
    bits < 2 ^ 64 /\
    (59 < 5 -> bits = 0).
Proof. apply (getBits_mask 5 59 15); [lia | reflexivity]. Defined.

Lemma witness_getBits_shortcut :
  exists bits,
    getBits 1 31 1 = Ok bits /\
    getBits_loop (N.to_nat (31 - 1) + 2) 1 31 1 0 = Some bits.
Proof. apply (getBits_shortcut 1 31). reflexivity. Defined.

Lemma witness_getBits_step_zero :
  (forall fuel bits, getBits_loop fuel 0 5 0 bits = None) /\
  getBits 0 5 0 = NoReturn.
Proof. apply (getBits_step_zero 0 5); [lia | reflexivity]. Defined.

Lemma witness_wildcard_is_all :
  exists b,
    all dom = Ok b /\
    (forall i, N.testbit b i =
       ((i <? 64) && (dom.(min) <=? i) && (i <=? dom.(max))) || (i =? 63)) /\
    (dom.(min) <= dom.(max) -> getField "*" dom = Ok b /\ getField "?" dom = Ok b) /\
    (dom.(max) < dom.(min) ->
       getField "*" dom = Err (ErrBeyondEnd dom.(min) dom.(max) "*")).
Proof. apply (wildcard_is_all dom). reflexivity. Defined.

Lemma witness_too_many_slashes :
  (exists e, getRange "1/2/3" minutes = Err e) /\
  (isWildcard (firstToken (rangePart "1/2/3")) = true ->
   getRange "1/2/3" minutes = Err (ErrTooManySlashes "1/2/3")).
Proof. apply (too_many_slashes "1/2/3" minutes). cbn. lia. Defined.

Lemma witness_getRange_low_high :
  (exists bits,
     getRange ("10" +:+ String "-" "40") minutes = Ok bits /\
     forall i, N.testbit bits i = (10 <=? i) && (i <=? 40)) /\
  (exists bits,
     getRange ("10" +:+ String "-" ("40" +:+ String "/" "10")) minutes = Ok bits /\
     forall i, N.testbit bits i = stepped 10 40 10 i).
Proof.
  apply (getRange_low_high minutes "10" "40" "10" 10 40 10); try reflexivity; cbn; lia.
Defined.

Lemma witness_getRange_single_value :
  (dow.(min) <= 3 -> 3 <= dow.(max) -> getRange "3" dow = Ok (2 ^ 3)) /\
  (3 < dow.(min) -> getRange "3" dow = Err (ErrBelowMinimum 3 dow.(min) "3")) /\
  (dow.(max) < 3 -> dow.(min) <= 3 ->
   getRange "3" dow = Err (ErrAboveMaximum 3 dow.(max) "3")).
Proof. apply (getRange_single_value dow "3" 3); reflexivity. Defined.

Lemma witness_empty_mask :
  0 = 0 <-> onlyCommas ",," = true.
Proof. apply (empty_mask_only_commas ",," minutes 0); reflexivity. Defined.

Lemma witness_getField_comma :
  getField ("1" +:+ String "," "2") minutes = Ok (N.lor 2 4) /\
  getField ("2" +:+ String "," "1") minutes = Ok (N.lor 2 4).
Proof. apply (proj1 (getField_comma "1" "2" minutes) 2 4); reflexivity. Defined.

Lemma witness_mustParseInt :
  0 < 2 ^ 63 /\ "-0" <> EmptyString /\ (strings.HasPrefix "-0" "-" = true -> 0 = 0).
Proof. apply (proj1 (mustParseInt_results "-0") 0). reflexivity. Defined.

Lemma witness_normalizeFields_returns :
  length ["0"; "1"; "2"; "3"; "4"; "5"] = 6%nat.
Proof.
  apply (proj2 (proj2 (normalizeFields_returns ["1"; "2"; "3"; "4"; "5"] 126%Z))).
  reflexivity.
Defined.

Lemma witness_normalizeFields_accepts :
  (optionalFlags 126 <= 1 /\
   maxFields 126 - optionalFlags 126 <= Z.of_nat (length ["1"; "2"; "3"; "4"; "5"])
     <= maxFields 126 /\
   ["0"; "1"; "2"; "3"; "4"; "5"] =
   distribute (configured 126) places defaults (completed 126 ["1"; "2"; "3"; "4"; "5"]))%Z.
Proof.
  apply (proj1 (normalizeFields_accepts ["1"; "2"; "3"; "4"; "5"]
                  ["0"; "1"; "2"; "3"; "4"; "5"] 126%Z)).
  reflexivity.
Defined.

Lemma witness_normalizeFields_rejects :
  normalizeFields ["1"; "2"] standardParser.(options) =
  Err (ErrExpectedExactly 5 2 ["1"; "2"]).
Proof.
  apply (proj1 (proj2 (normalizeFields_rejects ["1"; "2"] standardParser.(options))));
    [reflexivity | reflexivity | discriminate].
Defined.

Lemma witness_normalizeFields_six_tokens :
  normalizeFields ["1"; "2"; "3"; "4"; "5"; "6"] 127%Z = Ok ["1"; "2"; "3"; "4"; "5"; "6"].
Proof.
  apply (normalizeFields_six_tokens ["1"; "2"; "3"; "4"; "5"; "6"] 127%Z);
    [|vm_compute; discriminate|reflexivity].
  intros place Hin. repeat (destruct Hin as [<-|Hin]; [reflexivity|]). destruct Hin.
Defined.

Lemma witness_normalizeFields_keeps_tokens :
  ["1"; "2"; "3"; "4"; "5"] `sublist_of` ["0"; "1"; "2"; "3"; "4"; "5"].
Proof.
  apply (normalizeFields_keeps_tokens ["1"; "2"; "3"; "4"; "5"]
           ["0"; "1"; "2"; "3"; "4"; "5"] 126%Z).
  reflexivity.
Defined.

Lemma witness_NewParser_checks :
  (NewParser 126%Z = Ok {| options := 126%Z |} /\
   forall fields, normalizeFields fields 126%Z <> Err ErrMultipleOptionals) /\
  (NewParser 254%Z = Panic (PanicMsg "multiple optionals may not be configured") /\
   forall fields, normalizeFields fields 254%Z = Err ErrMultipleOptionals).
Proof.
  split.
  - apply (proj1 (NewParser_checks 126%Z)). reflexivity.
  - apply (proj2 (NewParser_checks 254%Z)). reflexivity.
Defined.

Lemma witness_parseDescriptor_results :
  exists text, "@every 1h30m" = "@every " +:+ text /\
               @ParseDuration utcOnly text = inl "1h30m".
Proof.
  apply (proj1 (proj2 (proj2 (@parseDescriptor_results utcOnly "@every 1h30m" "UTC")))
           "1h30m").
  reflexivity.
Defined.

Lemma witness_Parse_fields_in_order :
  @Parse utcOnly standardParser "0 0 * * 0" =
  let* fields := normalizeFields (strings.Fields "0 0 * * 0") standardParser.(options) in
  @compileFields utcOnly (@Local utcOnly) fields.
Proof.
  apply (@Parse_fields_in_order utcOnly standardParser "0 0 * * 0");
    [reflexivity | discriminate | reflexivity | reflexivity | reflexivity].
Defined.

Lemma witness_Parse_timezone_prefix :
  @Parse utcOnly standardParser ("TZ=" +:+ ("UTC" +:+ String " " " 0 0 * * 0")) =
  @withLocation utcOnly "UTC"
    (@Parse utcOnly standardParser (strings.TrimSpace " 0 0 * * 0")).
Proof.
  apply (@Parse_timezone_prefix utcOnly standardParser "TZ=" "UTC" " 0 0 * * 0" "UTC");
    [now left | reflexivity | reflexivity | reflexivity | discriminate
    | reflexivity | reflexivity].
Defined.

Lemma witness_Parse_bad_timezone :
  @Parse utcOnly standardParser ("CRON_TZ=" +:+ ("Mars" +:+ String " " "0 0 * * 0")) =
  Err (ErrBadLocation "Mars" "unknown time zone").
Proof.
  apply (@Parse_bad_timezone utcOnly standardParser "CRON_TZ=" "Mars" "0 0 * * 0"
           "unknown time zone");
    [now right | reflexivity | reflexivity].
Defined.

Lemma witness_Parse_without_descriptors :
  (forall d, @Parse utcOnly {| options := 124%Z |} "@daily" <> Ok (@Every utcOnly d)) /\
  (strings.HasPrefix "@daily" "TZ=" = false -> strings.HasPrefix "@daily" "CRON_TZ=" = false ->
   strings.HasPrefix "@daily" "@" = true ->
   @Parse utcOnly {| options := 124%Z |} "@daily" = Err (ErrNoDescriptors "@daily")).
Proof.
  apply (@Parse_without_descriptors utcOnly {| options := 124%Z |} "@daily"). reflexivity.
Defined.

Lemma witness_ParseStandard_field_count :
  @ParseStandard utcOnly "* * *" =
  Err (ErrExpectedExactly 5 (Z.of_nat (length (strings.Fields "* * *")))
         (strings.Fields "* * *")).
Proof.
  apply (@ParseStandard_field_count utcOnly "* * *");
    [reflexivity | discriminate | reflexivity | reflexivity | reflexivity
    | vm_compute; discriminate].
Defined.

Lemma witness_unconfigured_second_and_minute :
  (configured standardParser.(options) Second = false -> 1 = 1) /\
  (configured standardParser.(options) Minute = false -> 1 = 1).
Proof.
  apply (@unconfigured_second_and_minute utcOnly standardParser "0 0 1 1 0"
           (@Build_SpecSchedule utcOnly 1 1 1 2 2 1 "Local")).
  reflexivity.
Defined.

Lemma witness_descriptor_table :
  @Parse utcOnly standardParser "@yearly" = @ParseStandard utcOnly "0 0 1 1 *" /\
  @Parse utcOnly standardParser "@annually" = @ParseStandard utcOnly "0 0 1 1 *" /\
  @Parse utcOnly standardParser "@monthly" = @ParseStandard utcOnly "0 0 1 * *" /\
  @Parse utcOnly standardParser "@daily" = @ParseStandard utcOnly "0 0 * * *" /\
  @Parse utcOnly standardParser "@midnight" = @ParseStandard utcOnly "0 0 * * *" /\
  @Parse utcOnly standardParser "@hourly" = @ParseStandard utcOnly "0 * * * *" /\
  exists s, @Parse utcOnly standardParser "@hourly" = Ok (Spec s).
Proof. apply (@descriptor_table utcOnly standardParser). discriminate. Defined.

Lemma witness_Parse_returns :
  returns (@Parse utcOnly standardParser "TZ=UTC 0 0 * * *").
Proof.
  apply (@Parse_returns utcOnly standardParser "TZ=UTC 0 0 * * *").
  intros _. reflexivity.
Defined.
